(** * Text Splitter: the segmentation loop of [App.tsx]

    A shallow embedding of [splitText] (src/App.tsx, lines 16-59), of the
    types of [types.ts] and, further down, of the state of the component
    and the handlers that write it.  JavaScript strings are sequences of UTF-16 code
    units: a string is a list of code units, a code unit a number of [N].
    Positions are JavaScript numbers holding integers; they are modelled by
    [Z], because [lastIndexOf] answers [-1] and [slice] gives a meaning to
    negative arguments. *)

From Stdlib Require Import String Ascii DecimalString DecimalNat DecimalFacts.
From Stdlib Require Import ZArith NArith List Bool Lia FunInd.
Import ListNotations.

#[local] Open Scope Z_scope.

(** ** Strings *)

Definition char : Type := N.
Definition str : Type := list char.

Definition LF : char := 10%N.
Definition CR : char := 13%N.

(** A literal of the source, code unit by code unit. *)
Definition lit (s : string) : str := map N_of_ascii (list_ascii_of_string s).

(** [s.length] *)
Definition len (s : str) : Z := Z.of_nat (length s).

(** [s[i]]: [None] stands for [undefined]. *)
Definition charAt (s : str) (i : Z) : option char :=
  if i <? 0 then None else nth_error s (Z.to_nat i).

(** [s[i] === c] *)
Definition charIs (s : str) (i : Z) (c : char) : bool :=
  match charAt s i with
  | Some d => N.eqb d c
  | None => false
  end.

(** [s.slice(start, end)], with the clamping of ECMAScript: a negative
    argument counts from the end, both are clamped to [0 .. s.length]. *)
Definition slice (s : str) (start end_ : Z) : str :=
  let from := if start <? 0 then Z.max (len s + start) 0 else Z.min start (len s) in
  let to := if end_ <? 0 then Z.max (len s + end_) 0 else Z.min end_ (len s) in
  firstn (Z.to_nat (Z.max (to - from) 0)) (skipn (Z.to_nat from) s).

(** Backward scan of [lastIndexOf] for a one-character needle: the indices
    [n], [n-1], ..., [0] are tried in that order. *)
Fixpoint lastIndexFrom (s : str) (c : char) (n : nat) : Z :=
  if charIs s (Z.of_nat n) c then Z.of_nat n
  else match n with
       | O => -1
       | S k => lastIndexFrom s c k
       end.

(** [s.lastIndexOf(c, fromIndex)] for a one-character [c]: the start of the
    scan is [fromIndex] clamped to [0 .. s.length - 1]. *)
Definition lastIndexOf (s : str) (c : char) (fromIndex : Z) : Z :=
  if len s =? 0 then -1
  else lastIndexFrom s c (Z.to_nat (Z.min (Z.max fromIndex 0) (len s - 1))).

Fixpoint startsWith (s p : str) {struct p} : bool :=
  match p, s with
  | [], _ => true
  | _ :: _, [] => false
  | c :: p', d :: s' => N.eqb d c && startsWith s' p'
  end.

(** [s.includes(p)] *)
Fixpoint includes (s p : str) : bool :=
  startsWith s p ||
  match s with
  | [] => false
  | _ :: s' => includes s' p
  end.

(** [text.replace(/\r\n/g, '\n')]: one left-to-right pass, the matches do
    not overlap and the replacement text is not scanned again. *)
Fixpoint sanitize (text : str) : str :=
  match text with
  | [] => []
  | c :: rest =>
      match rest with
      | d :: rest' =>
          if N.eqb c CR && N.eqb d LF then LF :: sanitize rest'
          else c :: sanitize rest
      | [] => [c]
      end
  end.

(** Decimal printing of a length or an index inside a template literal. *)
Definition decimal (n : nat) : str := lit (NilZero.string_of_uint (Nat.to_uint n)).

(** ** Blocks ([types.ts]) *)

Inductive BlockType : Type :=
| NORMAL
| SPECIAL_TRIGGER
| POST_SPECIAL.

Record TextBlock : Type := mkBlock {
  id : str;
  content : str;
  type : BlockType
}.

(** ** The loop of [splitText]

    The source fixes the chunk length ([MAX_CHARS]) and the marker (the
    literal of line 36); the run token [fileId] comes from the clock.  The
    three are parameters of the loop here, and [splitText] below instantiates
    the first two with the constants of the source. *)

Inductive BreakKind : Type :=
| SoftBreak      (* the boundary is a line break found by [lastIndexOf] *)
| HardBreak      (* the tentative boundary is kept *)
| Terminal.      (* the chunk runs to the end of the text *)

(** One entry of the log of an execution: where a chunk started and ended,
    which branch chose the boundary, and whether line 54 ran. *)
Record Boundary : Type := mkBoundary {
  b_start : Z;
  b_end : Z;
  b_kind : BreakKind;
  b_swallowed : bool
}.

(** The variables of the loop.  [trace] is a ghost variable: the code does
    not have it and nothing the code computes reads it. *)
Record LoopState : Type := mkState {
  currentPos : Z;
  specialTriggered : bool;
  result : list TextBlock;
  trace : list Boundary
}.

Section Loop.

Variable maxChunkLength : Z.
Variable marker : str.
Variable fileId : str.
Variable sanitizedText : str.

(** Lines 24-33: which branch decides the boundary. *)
Definition breakKind (pos : Z) : BreakKind :=
  let endPos := pos + maxChunkLength in
  if endPos <? len sanitizedText then
    let lastNewLine := lastIndexOf sanitizedText LF endPos in
    if lastNewLine >? pos then SoftBreak else HardBreak
  else Terminal.

(** Lines 24-33: the boundary. *)
Definition chooseEnd (pos : Z) : Z :=
  let endPos := pos + maxChunkLength in
  if endPos <? len sanitizedText then
    let lastNewLine := lastIndexOf sanitizedText LF endPos in
    if lastNewLine >? pos then lastNewLine else endPos
  else len sanitizedText.

(** Lines 38-44. *)
Definition classify (triggered containsSpecial : bool) : BlockType * bool :=
  if triggered then (POST_SPECIAL, true)
  else if containsSpecial then (SPECIAL_TRIGGER, true)
  else (NORMAL, false).

(** Line 47: the template literal of the identifier. *)
Definition blockId (index chunkLength : nat) : str :=
  lit "block-" ++ fileId ++ lit "-" ++ decimal index ++ lit "-" ++ decimal chunkLength.

(** Lines 24-55: one iteration. *)
Definition body (st : LoopState) : LoopState :=
  let endPos := chooseEnd (currentPos st) in
  let chunk := slice sanitizedText (currentPos st) endPos in
  let containsSpecial := includes chunk marker in
  let '(ty, triggered) := classify (specialTriggered st) containsSpecial in
  let block := mkBlock (blockId (length (result st)) (length chunk)) chunk ty in
  let swallowed := charIs sanitizedText endPos LF in
  mkState (if swallowed then endPos + 1 else endPos)
          triggered
          (result st ++ [block])
          (trace st ++ [mkBoundary (currentPos st) endPos (breakKind (currentPos st)) swallowed]).

(** Lines 23-58: the loop.  [None] is an execution that is still running
    when the fuel is spent. *)
Fixpoint loop (fuel : nat) (st : LoopState) : option LoopState :=
  if currentPos st <? len sanitizedText then
    match fuel with
    | O => None
    | S fuel' => loop fuel' (body st)
    end
  else Some st.

End Loop.

(** Lines 17-19. *)
Definition initial : LoopState := mkState 0 false [] [].

(** The whole of [splitText], with its final state.  The loop is given one
    more iteration than the text has characters; [run_ends] shows that this
    is enough whenever the chunk length is positive. *)
Definition run (maxChunkLength : Z) (marker fileId text : str) : option LoopState :=
  let sanitizedText := sanitize text in
  loop maxChunkLength marker fileId sanitizedText (S (length sanitizedText)) initial.

Definition splitTextWith (maxChunkLength : Z) (marker fileId text : str)
  : option (list TextBlock) :=
  option_map result (run maxChunkLength marker fileId text).

(** Line 4 and the literal of line 36. *)
Definition MAX_CHARS : Z := 4950.
Definition MARKER : str := lit "[&$]".

(** [splitText] as the source has it; [fileId] is [Date.now().toString(36)]. *)
Definition splitText (fileId text : str) : option (list TextBlock) :=
  splitTextWith MAX_CHARS MARKER fileId text.

Definition contents (bs : list TextBlock) : list str := map content bs.
Definition categories (bs : list TextBlock) : list BlockType := map type bs.

(** ** Notions the properties are stated with *)

(** What was swallowed after a chunk: the line break of line 54, or nothing. *)
Definition separator (t : Boundary) : str :=
  if b_swallowed t then [LF] else [].

(** The block contents in order, each followed by what was swallowed after it. *)
Fixpoint reassemble (bs : list TextBlock) (tr : list Boundary) : str :=
  match bs, tr with
  | b :: bs', t :: tr' => content b ++ separator t ++ reassemble bs' tr'
  | _, _ => []
  end.

(** The pattern of the categories: some NORMAL, then possibly one
    SPECIAL_TRIGGER followed by some POST_SPECIAL. *)
Definition monotone_pattern (cs : list BlockType) : Prop :=
  exists n : nat,
    cs = repeat NORMAL n \/
    exists m : nat, cs = repeat NORMAL n ++ SPECIAL_TRIGGER :: repeat POST_SPECIAL m.

(** The same pattern as an automaton: [triggered] is the state. *)
Fixpoint accepts (triggered : bool) (cs : list BlockType) : bool :=
  match cs with
  | [] => true
  | NORMAL :: cs' => negb triggered && accepts false cs'
  | SPECIAL_TRIGGER :: cs' => negb triggered && accepts true cs'
  | POST_SPECIAL :: cs' => triggered && accepts true cs'
  end.

(** The categories seen so far, given the flag of the loop. *)
Definition categories_so_far (triggered : bool) (cs : list BlockType) : Prop :=
  if triggered
  then exists n m : nat, cs = repeat NORMAL n ++ SPECIAL_TRIGGER :: repeat POST_SPECIAL m
  else exists n : nat, cs = repeat NORMAL n.

(** The invariant of the loop. *)
Record Inv (maxChunkLength : Z) (sanitizedText : str) (st : LoopState) : Prop := mkInv {
  inv_pos : 0 <= currentPos st <= len sanitizedText;
  inv_trace : length (trace st) = length (result st);
  inv_text : firstn (Z.to_nat (currentPos st)) sanitizedText
             = reassemble (result st) (trace st);
  inv_slices : Forall2 (fun b t => content b = slice sanitizedText (b_start t) (b_end t))
                       (result st) (trace st);
  inv_swallowed : Forall (fun t => b_swallowed t = true <-> b_kind t = SoftBreak) (trace st);
  inv_sizes : Forall (fun b => 1 <= len (content b) <= maxChunkLength) (result st);
  inv_categories : categories_so_far (specialTriggered st) (categories (result st))
}.

(** Normalization as the specification words it: every CR LF pair becomes
    one LF, every other character stays.  To be compared with [sanitize]. *)
Inductive replaces_crlf : str -> str -> Prop :=
| replaces_nil : replaces_crlf [] []
| replaces_pair (t t' : str) :
    replaces_crlf t t' -> replaces_crlf (CR :: LF :: t) (LF :: t')
| replaces_other (c : char) (t t' : str) :
    ~ (c = CR /\ hd_error t = Some LF) ->
    replaces_crlf t t' -> replaces_crlf (c :: t) (c :: t').

(** The scenario of the specification, section 8, number 3. *)
Definition scenario3 : str :=
  lit "aaaaa" ++ [LF] ++ lit "bbbbb[&$]cc" ++ [LF] ++ lit "ddddd".

(** A text of [MAX_CHARS + 2] characters without line break, whose last
    four characters are the marker: the first boundary falls inside it. *)
Definition marker_across_boundary : str :=
  repeat 97%N 4948 ++ lit "[&$]".

(** Two states that differ in the identifiers of their blocks only. *)
Definition same_but_ids (st1 st2 : LoopState) : Prop :=
  currentPos st1 = currentPos st2 /\
  specialTriggered st1 = specialTriggered st2 /\
  contents (result st1) = contents (result st2) /\
  categories (result st1) = categories (result st2) /\
  length (result st1) = length (result st2) /\
  trace st1 = trace st2.

(** ** Further notions: positions, marker and identifiers *)

(** Where the next chunk starts after a boundary: lines 52-55. *)
Definition next_start (t : Boundary) : Z :=
  if b_swallowed t then b_end t + 1 else b_end t.

(** The chunks of a log follow one another from [start]: each one begins
    where the one before it left the position, and is not empty. *)
Fixpoint follows (start : Z) (tr : list Boundary) : Prop :=
  match tr with
  | [] => True
  | t :: tr' => b_start t = start /\ b_start t < b_end t /\ follows (next_start t) tr'
  end.

(** The position after the chunks of a log that began at [start]. *)
Fixpoint position_after (start : Z) (tr : list Boundary) : Z :=
  match tr with
  | [] => start
  | t :: tr' => position_after (next_start t) tr'
  end.

(** Some block of [bs] has the marker in its content. *)
Definition seen (marker : str) (bs : list TextBlock) : bool :=
  existsb (fun b => includes (content b) marker) bs.

(** Every block carries the identifier of its index and content length. *)
Definition identified (fileId : str) (bs : list TextBlock) : Prop :=
  forall (i : nat) (b : TextBlock),
    nth_error bs i = Some b -> id b = blockId fileId i (length (content b)).

(** The sum of the content lengths. *)
Definition total_length (bs : list TextBlock) : Z :=
  fold_right (fun b acc => len (content b) + acc) 0 bs.

(** How a boundary was chosen inside the window of [maxChunkLength]
    characters after the start of its chunk. *)
Definition window_rule (maxChunkLength : Z) (sanitizedText : str) (t : Boundary) : Prop :=
  match b_kind t with
  | SoftBreak =>
      charIs sanitizedText (b_end t) LF = true /\
      b_start t < b_end t <= b_start t + maxChunkLength /\
      forall j : Z, b_end t < j <= b_start t + maxChunkLength ->
                    charIs sanitizedText j LF = false
  | HardBreak =>
      b_end t = b_start t + maxChunkLength /\
      b_end t < len sanitizedText /\
      forall j : Z, b_start t < j <= b_start t + maxChunkLength ->
                    charIs sanitizedText j LF = false
  | Terminal =>
      b_end t = len sanitizedText /\
      len sanitizedText <= b_start t + maxChunkLength
  end.

(** A boundary of the log is the one the code computes at its start. *)
Definition computed (maxChunkLength : Z) (sanitizedText : str) (t : Boundary) : Prop :=
  0 <= b_start t < len sanitizedText /\
  b_end t = chooseEnd maxChunkLength sanitizedText (b_start t) /\
  b_kind t = breakKind maxChunkLength sanitizedText (b_start t).

(** The flag and the categories agree with the marker in the contents:
    the flag says whether some block so far has it, and the category of a
    block is what lines 38-44 give for the blocks before it. *)
Definition classified (marker : str) (st : LoopState) : Prop :=
  specialTriggered st = seen marker (result st) /\
  forall (i : nat) (b : TextBlock),
    nth_error (result st) i = Some b ->
    type b = fst (classify (seen marker (firstn i (result st)))
                           (includes (content b) marker)).

(** The characters that are not carriage returns, in order. *)
Definition without_CR (s : str) : str := filter (fun c => negb (N.eqb c CR)) s.

(** ** The component: its state and its handlers

    The four [useState] cells of [App] and the handlers that write them.
    What the browser or the user answers (the outcome of the extraction,
    of [window.confirm], of the clipboard write) is an argument. *)

Record AppState : Type := mkApp {
  blocks : list TextBlock;
  activeBlockIndex : option Z;       (* [None] is [null] *)
  isDarkMode : bool;
  totalChars : Z
}.

(** The initial values of the four cells. *)
Definition initialApp : AppState := mkApp [] None false 0.

(** [blocks[index]]: [None] stands for [undefined]. *)
Definition blockAt (bs : list TextBlock) (index : Z) : option TextBlock :=
  if index <? 0 then None else nth_error bs (Z.to_nat index).

(** [activeBlockIndex === index] *)
Definition isActive (st : AppState) (index : Z) : bool :=
  match activeBlockIndex st with
  | Some a => a =? index
  | None => false
  end.

(** What [mammoth.extractRawText] does with the file: it resolves with the
    text or it throws. *)
Inductive Extraction : Type :=
| Extracted (text : str)
| Rejected.

(** [handleFileUpload]: [file] is [None] when no file was chosen.  A
    rejected extraction is caught and changes no cell. *)
Definition handleFileUpload (fileId : str) (file : option Extraction) (st : AppState)
  : option AppState :=
  match file with
  | None => Some st
  | Some Rejected => Some st
  | Some (Extracted text) =>
      match splitText fileId text with
      | Some generatedBlocks =>
          Some (mkApp generatedBlocks None (isDarkMode st) (len text))
      | None => None
      end
  end.

(** [resetApp]: [confirmed] is the answer of [window.confirm]. *)
Definition resetApp (confirmed : bool) (st : AppState) : AppState :=
  if confirmed then mkApp [] None (isDarkMode st) 0 else st.

Definition toggleDarkMode (st : AppState) : AppState :=
  mkApp (blocks st) (activeBlockIndex st) (negb (isDarkMode st)) (totalChars st).

(** What [handleButtonClick] hands to [navigator.clipboard.writeText], if
    anything.  [rendered] is the [blocks] the handler closed over.  Reading
    [content] of [undefined] throws inside the [try]: nothing is written. *)
Definition copyRequest (rendered : list TextBlock) (index : Z) : option str :=
  if index >=? Z.of_nat (length rendered) then None
  else option_map content (blockAt rendered index).

(** [handleButtonClick]: [written] tells whether the write succeeded; [st]
    is the state when [setActiveBlockIndex] runs. *)
Definition handleButtonClick (rendered : list TextBlock) (index : Z) (written : bool)
           (st : AppState) : AppState :=
  match copyRequest rendered index with
  | Some _ =>
      if written
      then mkApp (blocks st) (Some index) (isDarkMode st) (totalChars st)
      else st
  | None => st
  end.

(** One download of [handleExportAll]: the name of the file, the text given
    to the [Blob], and the delay of its timer in milliseconds. *)
Record Download : Type := mkDownload {
  d_name : str;
  d_text : str;
  d_delay : Z
}.

(** The [forEach] of [handleExportAll], from [index] on. *)
Fixpoint exportFrom (index : nat) (bs : list TextBlock) : list Download :=
  match bs with
  | [] => []
  | block :: rest =>
      mkDownload (lit "bloque_" ++ decimal (index + 1) ++ lit ".txt")
                 (content block)
                 (Z.of_nat index * 200)
      :: exportFrom (S index) rest
  end.

(** The question of [handleExportAll]; 225 and 191 are the code units of
    the two characters of the message that are not ASCII. *)
Definition exportQuestion (count : nat) : str :=
  lit "Se descargar" ++ [225%N] ++ lit "n " ++ decimal count
  ++ lit " archivos de texto individuales. " ++ [191%N] ++ lit "Deseas continuar?".

(** [handleExportAll]: [confirm] is [window.confirm]. *)
Definition handleExportAll (confirm : str -> bool) (bs : list TextBlock) : list Download :=
  if Z.of_nat (length bs) =? 0 then []
  else if negb (confirm (exportQuestion (length bs))) then []
  else exportFrom 0 bs.

(** [getButtonColor]: [None] is the TypeError of reading [type] of
    [undefined]. *)
Definition getButtonColor (st : AppState) (index : Z) : option str :=
  match blockAt (blocks st) index with
  | None => None
  | Some block =>
      Some
        match type block with
        | SPECIAL_TRIGGER =>
            if isActive st index
            then lit "bg-amber-600 text-white shadow-lg scale-105"
            else lit "bg-amber-500 text-white hover:bg-amber-400 ring-2 ring-amber-500/20"
        | POST_SPECIAL =>
            if isActive st index
            then lit "bg-rose-600 text-white shadow-lg scale-105"
            else lit "bg-rose-500 text-white hover:bg-rose-400 ring-2 ring-rose-500/20"
        | NORMAL =>
            if isActive st index
            then (if isDarkMode st
                  then lit "bg-indigo-500 text-white shadow-lg scale-105"
                  else lit "bg-indigo-600 text-white shadow-lg scale-105")
            else (if isDarkMode st
                  then lit "bg-indigo-700 text-indigo-100 hover:bg-indigo-600"
                  else lit "bg-indigo-500 text-white hover:bg-indigo-400")
        end
  end.

(** [getHighlightStyle]: the test on [activeBlockIndex] comes first. *)
Definition getHighlightStyle (st : AppState) (index : Z) : option str :=
  if negb (isActive st index) then Some []
  else
    match blockAt (blocks st) index with
    | None => None
    | Some block =>
        Some
          match type block with
          | SPECIAL_TRIGGER =>
              if isDarkMode st
              then lit "bg-amber-900/20 border-l-4 border-amber-500"
              else lit "bg-amber-100 border-l-4 border-amber-500"
          | POST_SPECIAL =>
              if isDarkMode st
              then lit "bg-rose-900/20 border-l-4 border-rose-500"
              else lit "bg-rose-100 border-l-4 border-rose-500"
          | NORMAL =>
              if isDarkMode st
              then lit "bg-indigo-900/20 border-l-4 border-indigo-500"
              else lit "bg-indigo-100 border-l-4 border-indigo-500"
          end
    end.

(** The states the component can be in: the initial one, and those a
    handler makes from one of them, whatever the browser and the user
    answer and whenever a pending clipboard write settles. *)
Inductive reachable : AppState -> Prop :=
| reach_initial : reachable initialApp
| reach_upload (st st' : AppState) (fileId : str) (file : option Extraction) :
    reachable st -> handleFileUpload fileId file st = Some st' -> reachable st'
| reach_reset (st : AppState) (confirmed : bool) :
    reachable st -> reachable (resetApp confirmed st)
| reach_toggle (st : AppState) :
    reachable st -> reachable (toggleDarkMode st)
| reach_click (st : AppState) (rendered : list TextBlock) (index : Z) (written : bool) :
    reachable st -> reachable (handleButtonClick rendered index written st).

(** The state after the scenario of section 8 was uploaded and the dark
    mode switched on. *)
Definition uploaded_scenario3 : AppState :=
  Eval vm_compute in
    toggleDarkMode
      match handleFileUpload (lit "k3") (Some (Extracted scenario3)) initialApp with
      | Some st => st
      | None => initialApp
      end.

Functional Scheme sanitize_ind := Induction for sanitize Sort Prop.

(** ** Facts about the string primitives *)

Lemma len_nonneg (s : str) : 0 <= len s.
Proof. unfold len. lia. Qed.

Lemma charIs_true (s : str) (i : Z) (c : char) :
  charIs s i c = true <-> 0 <= i /\ nth_error s (Z.to_nat i) = Some c.
Proof.
  unfold charIs, charAt.
  destruct (Z.ltb_spec i 0) as [Hneg | Hpos].
  - split; [discriminate | lia].
  - destruct (nth_error s (Z.to_nat i)) as [d |] eqn:E.
    + rewrite N.eqb_eq. split.
      * intros ->. split; [assumption | reflexivity].
      * intros [_ H]. now inversion H.
    + split; [discriminate | intros [_ H]; discriminate].
Qed.

Lemma charIs_inside (s : str) (i : Z) (c : char) :
  charIs s i c = true -> 0 <= i < len s.
Proof.
  intros H. apply charIs_true in H. destruct H as [H0 H].
  assert (Hlt : (Z.to_nat i < length s)%nat).
  { apply nth_error_Some. rewrite H. discriminate. }
  unfold len. lia.
Qed.

Lemma lastIndexFrom_found (s : str) (c : char) (n : nat) :
  lastIndexFrom s c n = -1 \/
  (0 <= lastIndexFrom s c n <= Z.of_nat n /\ charIs s (lastIndexFrom s c n) c = true).
Proof.
  induction n as [| k IH]; cbn [lastIndexFrom].
  - destruct (charIs s (Z.of_nat 0) c) eqn:E; [right | left; reflexivity].
    split; [lia | exact E].
  - destruct (charIs s (Z.of_nat (S k)) c) eqn:E.
    + right. split; [lia | exact E].
    + destruct IH as [IH | [IH1 IH2]]; [left; exact IH | right].
      split; [lia | exact IH2].
Qed.

Lemma lastIndexFrom_greatest (s : str) (c : char) (n : nat) (j : Z) :
  0 <= j <= Z.of_nat n -> charIs s j c = true -> j <= lastIndexFrom s c n.
Proof.
  induction n as [| k IH]; intros Hj Hc; cbn [lastIndexFrom].
  - assert (j = Z.of_nat 0) as -> by lia. rewrite Hc. lia.
  - destruct (charIs s (Z.of_nat (S k)) c) eqn:E; [lia |].
    apply IH; [| exact Hc].
    destruct (Z.eq_dec j (Z.of_nat (S k))) as [-> | Hne]; [congruence | lia].
Qed.

(** What [lastIndexOf] answers is [-1] or the index of an occurrence at or
    before [fromIndex]. *)
Lemma lastIndexOf_found (s : str) (c : char) (fromIndex : Z) :
  0 <= fromIndex ->
  lastIndexOf s c fromIndex = -1 \/
  (0 <= lastIndexOf s c fromIndex <= fromIndex /\
   charIs s (lastIndexOf s c fromIndex) c = true).
Proof.
  intros Hfrom. unfold lastIndexOf.
  destruct (Z.eqb_spec (len s) 0) as [_ | Hlen]; [left; reflexivity |].
  pose proof (len_nonneg s) as Hl.
  destruct (lastIndexFrom_found s c (Z.to_nat (Z.min (Z.max fromIndex 0) (len s - 1))))
    as [H | [H1 H2]]; [left; exact H | right].
  split; [lia | exact H2].
Qed.

(** No occurrence at or before [fromIndex] lies after the answer. *)
Lemma lastIndexOf_greatest (s : str) (c : char) (fromIndex j : Z) :
  0 <= j <= fromIndex -> charIs s j c = true -> j <= lastIndexOf s c fromIndex.
Proof.
  intros Hj Hc. pose proof (charIs_inside s j c Hc) as Hin.
  unfold lastIndexOf.
  destruct (Z.eqb_spec (len s) 0) as [Hlen | Hlen]; [lia |].
  apply lastIndexFrom_greatest; [lia | exact Hc].
Qed.

Lemma slice_inside (s : str) (a b : Z) :
  0 <= a <= b -> b <= len s ->
  slice s a b = firstn (Z.to_nat (b - a)) (skipn (Z.to_nat a) s).
Proof.
  intros Hab Hb. unfold slice.
  destruct (Z.ltb_spec a 0) as [Ha | _]; [lia |].
  destruct (Z.ltb_spec b 0) as [Hb' | _]; [lia |].
  rewrite !Z.min_l by lia. rewrite Z.max_l by lia. reflexivity.
Qed.

Lemma slice_length (s : str) (a b : Z) :
  0 <= a <= b -> b <= len s -> len (slice s a b) = b - a.
Proof.
  intros Hab Hb. rewrite slice_inside by assumption.
  unfold len in *. rewrite length_firstn, length_skipn. lia.
Qed.

Lemma firstn_plus {A : Type} (n m : nat) (l : list A) :
  firstn (n + m) l = firstn n l ++ firstn m (skipn n l).
Proof.
  revert l. induction n as [| n IH]; intros l; [reflexivity |].
  destruct l as [| x l]; cbn [Nat.add firstn skipn app].
  - now rewrite firstn_nil.
  - now rewrite IH.
Qed.

Lemma firstn_snoc {A : Type} (n : nat) (l : list A) (x : A) :
  nth_error l n = Some x -> firstn (S n) l = firstn n l ++ [x].
Proof.
  revert l. induction n as [| n IH]; intros [| y l] H; try discriminate.
  - cbn in H. now inversion H.
  - cbn [nth_error] in H. cbn [firstn app]. f_equal. change (firstn (S n) l = firstn n l ++ [x]).
    now apply IH.
Qed.

(** The text up to [b] is the text up to [a] followed by the slice. *)
Lemma prefix_slice (s : str) (a b : Z) :
  0 <= a <= b -> b <= len s ->
  firstn (Z.to_nat b) s = firstn (Z.to_nat a) s ++ slice s a b.
Proof.
  intros Hab Hb. rewrite slice_inside by assumption.
  rewrite <- firstn_plus. f_equal. lia.
Qed.

Lemma prefix_swallow (s : str) (b : Z) (c : char) :
  charIs s b c = true ->
  firstn (Z.to_nat (b + 1)) s = firstn (Z.to_nat b) s ++ [c].
Proof.
  intros H. apply charIs_true in H. destruct H as [H0 H].
  replace (Z.to_nat (b + 1)) with (S (Z.to_nat b)) by lia.
  now apply firstn_snoc.
Qed.

(** ** Facts about normalization *)

Lemma sanitize_cons2 (c d : char) (rest : str) :
  sanitize (c :: d :: rest) =
  if N.eqb c CR && N.eqb d LF then LF :: sanitize rest else c :: sanitize (d :: rest).
Proof. reflexivity. Qed.

Lemma sanitize_replaces (text : str) : replaces_crlf text (sanitize text).
Proof.
  functional induction (sanitize text).
  - constructor.
  - apply replaces_other; [| constructor]. cbn. intros [_ H]. discriminate.
  - apply andb_prop in e1. destruct e1 as [Hc Hd].
    apply N.eqb_eq in Hc, Hd. subst. now apply replaces_pair.
  - apply replaces_other; [| exact IHs].
    cbn. intros [Hc Hd]. inversion Hd. subst.
    discriminate.
Qed.

(** The normalized text begins with LF where a CR LF pair began the text. *)
Lemma sanitize_head (d : char) (rest : str) :
  d <> LF ->
  startsWith (sanitize (d :: rest)) [LF] = startsWith (d :: rest) [CR; LF].
Proof.
  intros Hd. destruct rest as [| e r].
  - cbn. destruct (N.eqb_spec d LF); [contradiction |].
    now rewrite andb_false_r.
  - rewrite sanitize_cons2. cbn [startsWith].
    destruct (N.eqb_spec d CR) as [Hcr | Hcr]; destruct (N.eqb_spec e LF) as [Hlf | Hlf];
      cbn; try reflexivity;
      destruct (N.eqb_spec d LF); try contradiction; reflexivity.
Qed.

(** A CR LF pair is left in the normalized text where the text has a CR
    before a CR LF pair, and nowhere else. *)
Lemma sanitize_leaves_crlf (text : str) :
  includes (sanitize text) [CR; LF] = includes text [CR; CR; LF].
Proof.
  functional induction (sanitize text).
  - reflexivity.
  - cbn. now rewrite !andb_false_r.
  - apply andb_prop in e1. destruct e1 as [Hc Hd].
    apply N.eqb_eq in Hc, Hd. subst. exact IHs.
  - cbn [includes]. rewrite IHs. f_equal.
    cbn [startsWith]. destruct (N.eqb_spec c CR) as [-> | Hc]; [| reflexivity].
    cbn [andb]. cbn [andb] in e1. apply N.eqb_neq in e1.
    now apply sanitize_head.
Qed.

(** ** Facts about one iteration *)

Lemma reassemble_snoc (bs : list TextBlock) (tr : list Boundary) (b : TextBlock) (t : Boundary) :
  length tr = length bs ->
  reassemble (bs ++ [b]) (tr ++ [t]) = reassemble bs tr ++ content b ++ separator t.
Proof.
  revert tr. induction bs as [| b0 bs IH]; intros [| t0 tr] Hlen; try discriminate.
  - cbn. now rewrite !app_nil_r.
  - cbn [app reassemble]. rewrite IH by (cbn in Hlen; lia).
    now rewrite <- !app_assoc.
Qed.

Lemma repeat_snoc {A : Type} (x : A) (n : nat) : repeat x n ++ [x] = repeat x (S n).
Proof. induction n as [| n IH]; [reflexivity |]. cbn. now rewrite IH. Qed.

Section Iteration.

Variable maxChunkLength : Z.
Variable marker : str.
Variable fileId : str.
Variable sanitizedText : str.
Hypothesis Hmax : 1 <= maxChunkLength.

(** The boundary lies strictly after the position, at most [maxChunkLength]
    further and inside the text. *)
Lemma chooseEnd_bounds (pos : Z) :
  0 <= pos < len sanitizedText ->
  pos < chooseEnd maxChunkLength sanitizedText pos <= len sanitizedText /\ chooseEnd maxChunkLength sanitizedText pos <= pos + maxChunkLength.
Proof.
  intros Hpos. unfold chooseEnd.
  destruct (Z.ltb_spec (pos + maxChunkLength) (len sanitizedText)) as [Hlt | Hge]; [| lia].
  destruct (Z.gtb_spec (lastIndexOf sanitizedText LF (pos + maxChunkLength)) pos)
    as [Hgt | Hle]; [| lia].
  destruct (lastIndexOf_found sanitizedText LF (pos + maxChunkLength)) as [H | [H1 H2]];
    lia.
Qed.

Lemma soft_break (pos : Z) :
  0 <= pos < len sanitizedText -> breakKind maxChunkLength sanitizedText pos = SoftBreak ->
  charIs sanitizedText (chooseEnd maxChunkLength sanitizedText pos) LF = true.
Proof.
  intros Hpos. unfold breakKind, chooseEnd.
  destruct (Z.ltb_spec (pos + maxChunkLength) (len sanitizedText)) as [Hlt | Hge];
    [| discriminate].
  destruct (Z.gtb_spec (lastIndexOf sanitizedText LF (pos + maxChunkLength)) pos)
    as [Hgt | Hle]; [| discriminate].
  intros _.
  destruct (lastIndexOf_found sanitizedText LF (pos + maxChunkLength)) as [H | [_ H]];
    [lia | lia | exact H].
Qed.

Lemma hard_break (pos : Z) :
  0 <= pos < len sanitizedText -> breakKind maxChunkLength sanitizedText pos = HardBreak ->
  chooseEnd maxChunkLength sanitizedText pos = pos + maxChunkLength /\
  charIs sanitizedText (chooseEnd maxChunkLength sanitizedText pos) LF = false.
Proof.
  intros Hpos. unfold breakKind, chooseEnd.
  destruct (Z.ltb_spec (pos + maxChunkLength) (len sanitizedText)) as [Hlt | Hge];
    [| discriminate].
  destruct (Z.gtb_spec (lastIndexOf sanitizedText LF (pos + maxChunkLength)) pos)
    as [Hgt | Hle]; [discriminate |].
  intros _. split; [reflexivity |].
  destruct (charIs sanitizedText (pos + maxChunkLength) LF) eqn:E; [| reflexivity].
  pose proof (lastIndexOf_greatest sanitizedText LF (pos + maxChunkLength)
                (pos + maxChunkLength) ltac:(lia) E).
  lia.
Qed.

Lemma terminal_break (pos : Z) :
  breakKind maxChunkLength sanitizedText pos = Terminal ->
  chooseEnd maxChunkLength sanitizedText pos = len sanitizedText /\
  charIs sanitizedText (chooseEnd maxChunkLength sanitizedText pos) LF = false.
Proof.
  unfold breakKind, chooseEnd.
  destruct (Z.ltb_spec (pos + maxChunkLength) (len sanitizedText)) as [Hlt | Hge].
  - destruct (Z.gtb_spec (lastIndexOf sanitizedText LF (pos + maxChunkLength)) pos);
      discriminate.
  - intros _. split; [reflexivity |].
    destruct (charIs sanitizedText (len sanitizedText) LF) eqn:E; [| reflexivity].
    apply charIs_inside in E. lia.
Qed.

(** Line 54 runs after the soft breaks and after no other boundary. *)
Lemma swallowed_iff_soft (pos : Z) :
  0 <= pos < len sanitizedText ->
  charIs sanitizedText (chooseEnd maxChunkLength sanitizedText pos) LF = true <-> breakKind maxChunkLength sanitizedText pos = SoftBreak.
Proof.
  intros Hpos. split.
  - intros Hc. destruct (breakKind maxChunkLength sanitizedText pos) eqn:K; [reflexivity | |].
    + destruct (hard_break pos Hpos K) as [_ H]. congruence.
    + destruct (terminal_break pos K) as [_ H]. congruence.
  - apply soft_break. exact Hpos.
Qed.

(** The four variables after one iteration. *)
Lemma body_currentPos (st : LoopState) :
  currentPos (body maxChunkLength marker fileId sanitizedText st) =
  let endPos := chooseEnd maxChunkLength sanitizedText (currentPos st) in
  if charIs sanitizedText endPos LF then endPos + 1 else endPos.
Proof. unfold body. now destruct (classify _ _). Qed.

Lemma body_specialTriggered (st : LoopState) :
  specialTriggered (body maxChunkLength marker fileId sanitizedText st) =
  let endPos := chooseEnd maxChunkLength sanitizedText (currentPos st) in
  snd (classify (specialTriggered st)
                (includes (slice sanitizedText (currentPos st) endPos) marker)).
Proof. unfold body. now destruct (classify _ _). Qed.

Lemma body_result (st : LoopState) :
  result (body maxChunkLength marker fileId sanitizedText st) =
  let endPos := chooseEnd maxChunkLength sanitizedText (currentPos st) in
  let chunk := slice sanitizedText (currentPos st) endPos in
  result st ++
  [mkBlock (blockId fileId (length (result st)) (length chunk)) chunk
           (fst (classify (specialTriggered st) (includes chunk marker)))].
Proof. unfold body. now destruct (classify _ _). Qed.

Lemma body_trace (st : LoopState) :
  trace (body maxChunkLength marker fileId sanitizedText st) =
  let endPos := chooseEnd maxChunkLength sanitizedText (currentPos st) in
  trace st ++
  [mkBoundary (currentPos st) endPos
              (breakKind maxChunkLength sanitizedText (currentPos st))
              (charIs sanitizedText endPos LF)].
Proof. unfold body. now destruct (classify _ _). Qed.

(** Every iteration moves the position forward and keeps it in the text. *)
Lemma body_progress (st : LoopState) :
  0 <= currentPos st < len sanitizedText ->
  currentPos st < currentPos (body maxChunkLength marker fileId sanitizedText st)
    <= len sanitizedText.
Proof.
  intros Hpos. rewrite body_currentPos. cbv zeta.
  pose proof (chooseEnd_bounds _ Hpos) as [Hb _].
  destruct (charIs sanitizedText _ LF) eqn:E; [| lia].
  apply charIs_inside in E. lia.
Qed.

Lemma categories_step (triggered containsSpecial : bool) (cs : list BlockType) :
  categories_so_far triggered cs ->
  categories_so_far (snd (classify triggered containsSpecial))
                    (cs ++ [fst (classify triggered containsSpecial)]).
Proof.
  unfold categories_so_far, classify.
  destruct triggered; [| destruct containsSpecial]; cbn [fst snd].
  - intros (n & m & ->). exists n, (S m).
    rewrite <- app_assoc. cbn [app]. now rewrite <- repeat_snoc.
  - intros (n & ->). now exists n, 0%nat.
  - intros (n & ->). exists (S n). apply repeat_snoc.
Qed.

Lemma body_Inv (st : LoopState) :
  Inv maxChunkLength sanitizedText st ->
  currentPos st < len sanitizedText ->
  Inv maxChunkLength sanitizedText (body maxChunkLength marker fileId sanitizedText st).
Proof.
  intros [Hpos Htr Htext Hsl Hsw Hsz Hcat] Hlt.
  assert (Hin : 0 <= currentPos st < len sanitizedText) by lia.
  pose proof (chooseEnd_bounds _ Hin) as [Hend Hwin].
  pose proof (body_progress st Hin) as Hprog.
  constructor.
  - lia.
  - rewrite body_trace, body_result. cbv zeta. rewrite !length_app. cbn. lia.
  - rewrite body_currentPos, body_trace, body_result. cbv zeta.
    rewrite reassemble_snoc by exact Htr. cbn [content].
    rewrite <- Htext, app_assoc, <- prefix_slice by lia.
    unfold separator. cbn [b_swallowed].
    destruct (charIs sanitizedText _ LF) eqn:E.
    + now apply prefix_swallow.
    + now rewrite app_nil_r.
  - rewrite body_trace, body_result. cbv zeta.
    apply Forall2_app; [exact Hsl |]. constructor; [reflexivity | constructor].
  - rewrite body_trace. cbv zeta.
    apply Forall_app. split; [exact Hsw |]. constructor; [| constructor].
    cbn [b_swallowed b_kind]. now apply swallowed_iff_soft.
  - rewrite body_result. cbv zeta.
    apply Forall_app. split; [exact Hsz |]. constructor; [| constructor].
    cbn [content]. rewrite slice_length by lia. lia.
  - rewrite body_specialTriggered, body_result. cbv zeta.
    unfold categories. rewrite map_app. cbn [map type].
    now apply categories_step.
Qed.

(** With enough fuel the loop ends, in a state where the invariant holds
    and the whole text has been consumed. *)
Lemma loop_ends (fuel : nat) (st : LoopState) :
  Inv maxChunkLength sanitizedText st ->
  len sanitizedText - currentPos st <= Z.of_nat fuel ->
  exists st', loop maxChunkLength marker fileId sanitizedText fuel st = Some st' /\
              Inv maxChunkLength sanitizedText st' /\
              currentPos st' = len sanitizedText.
Proof.
  revert st. induction fuel as [| fuel IH]; intros st HI Hfuel;
    pose proof (inv_pos _ _ _ HI) as Hpos; cbn [loop];
    destruct (Z.ltb_spec (currentPos st) (len sanitizedText)) as [Hlt | Hge].
  - lia.
  - exists st. split; [reflexivity | split; [exact HI | lia]].
  - apply IH; [now apply body_Inv |].
    pose proof (body_progress st ltac:(lia)). lia.
  - exists st. split; [reflexivity | split; [exact HI | lia]].
Qed.

End Iteration.

(** More fuel does not change the outcome of a run that ended. *)
Lemma loop_more_fuel (maxChunkLength : Z) (marker fileId sanitizedText : str)
      (fuel fuel' : nat) (st st' : LoopState) :
  loop maxChunkLength marker fileId sanitizedText fuel st = Some st' ->
  (fuel <= fuel')%nat ->
  loop maxChunkLength marker fileId sanitizedText fuel' st = Some st'.
Proof.
  revert fuel' st. induction fuel as [| fuel IH]; intros fuel' st H Hle;
    cbn [loop] in H; destruct fuel' as [| fuel']; cbn [loop];
    destruct (currentPos st <? len sanitizedText); try assumption; try discriminate; try lia.
  apply IH; [exact H | lia].
Qed.

Lemma Inv_initial (maxChunkLength : Z) (sanitizedText : str) :
  Inv maxChunkLength sanitizedText initial.
Proof.
  constructor; cbn; try reflexivity; try constructor.
  - lia.
  - apply len_nonneg.
  - now exists 0%nat.
Qed.

(** A run with a positive chunk length ends, with the invariant. *)
Lemma run_ends (maxChunkLength : Z) (marker fileId text : str) :
  1 <= maxChunkLength ->
  exists st, run maxChunkLength marker fileId text = Some st /\
             Inv maxChunkLength (sanitize text) st /\
             currentPos st = len (sanitize text).
Proof.
  intros Hmax. unfold run. cbv zeta.
  apply loop_ends; [exact Hmax | apply Inv_initial |].
  unfold len, initial. cbn [currentPos]. lia.
Qed.

Lemma splitTextWith_run (maxChunkLength : Z) (marker fileId text : str) (st : LoopState) :
  run maxChunkLength marker fileId text = Some st ->
  splitTextWith maxChunkLength marker fileId text = Some (result st).
Proof. unfold splitTextWith. now intros ->. Qed.

(** Every block of a run, the last one too, has between one character and
    [maxChunkLength] characters. *)
Lemma block_sizes (maxChunkLength : Z) (marker fileId text : str) :
  1 <= maxChunkLength ->
  exists bs, splitTextWith maxChunkLength marker fileId text = Some bs /\
             Forall (fun b => 1 <= len (content b) <= maxChunkLength) bs.
Proof.
  intros Hmax.
  destruct (run_ends maxChunkLength marker fileId text Hmax) as (st & Hrun & HI & _).
  exists (result st). split; [now apply splitTextWith_run | apply (inv_sizes _ _ _ HI)].
Qed.

Lemma accepts_post (m : nat) : accepts true (repeat POST_SPECIAL m) = true.
Proof. induction m as [| m IH]; [reflexivity | exact IH]. Qed.

Lemma accepts_normal (n : nat) (cs : list BlockType) :
  accepts false (repeat NORMAL n ++ cs) = accepts false cs.
Proof. induction n as [| n IH]; [reflexivity | exact IH]. Qed.

Lemma pattern_accepted (cs : list BlockType) :
  monotone_pattern cs -> accepts false cs = true.
Proof.
  intros (n & [-> | (m & ->)]).
  - rewrite <- (app_nil_r (repeat NORMAL n)). now rewrite accepts_normal.
  - rewrite accepts_normal. cbn. apply accepts_post.
Qed.

Lemma categories_pattern (triggered : bool) (cs : list BlockType) :
  categories_so_far triggered cs -> monotone_pattern cs.
Proof.
  unfold categories_so_far, monotone_pattern. destruct triggered.
  - intros (n & m & ->). exists n. right. now exists m.
  - intros (n & ->). exists n. now left.
Qed.

(** ** The run token *)

Lemma body_same_but_ids (maxChunkLength : Z) (marker fileId1 fileId2 sanitizedText : str)
      (st1 st2 : LoopState) :
  same_but_ids st1 st2 ->
  same_but_ids (body maxChunkLength marker fileId1 sanitizedText st1)
               (body maxChunkLength marker fileId2 sanitizedText st2).
Proof.
  intros (Hp & Ht & Hc & Hk & Hl & Htr). unfold same_but_ids.
  rewrite !body_currentPos, !body_specialTriggered, !body_result, !body_trace.
  cbv zeta. unfold contents, categories in *. rewrite !map_app, !length_app.
  cbn [map content type length]. rewrite Hp, Ht, Hc, Hk, Hl, Htr.
  repeat split; reflexivity.
Qed.

Lemma loop_same_but_ids (maxChunkLength : Z) (marker fileId1 fileId2 sanitizedText : str)
      (fuel : nat) (st1 st2 : LoopState) :
  same_but_ids st1 st2 ->
  match loop maxChunkLength marker fileId1 sanitizedText fuel st1,
        loop maxChunkLength marker fileId2 sanitizedText fuel st2 with
  | Some st1', Some st2' => same_but_ids st1' st2'
  | None, None => True
  | _, _ => False
  end.
Proof.
  revert st1 st2. induction fuel as [| fuel IH]; intros st1 st2 H;
    pose proof H as (Hp & _); cbn [loop]; rewrite Hp;
    destruct (currentPos st2 <? len sanitizedText); try exact H; try exact I.
  apply IH. now apply body_same_but_ids.
Qed.

Lemma run_same_but_ids (maxChunkLength : Z) (marker fileId1 fileId2 text : str) :
  match run maxChunkLength marker fileId1 text, run maxChunkLength marker fileId2 text with
  | Some st1, Some st2 => same_but_ids st1 st2
  | None, None => True
  | _, _ => False
  end.
Proof.
  unfold run. cbv zeta. apply loop_same_but_ids.
  unfold same_but_ids. repeat split; reflexivity.
Qed.

(** ** A marker across the first boundary *)

Lemma charIs_In (s : str) (i : Z) (c : char) : charIs s i c = true -> In c s.
Proof.
  intros H. apply charIs_true in H. destruct H as [_ H]. now apply nth_error_In in H.
Qed.

Lemma lastIndexOf_absent (s : str) (c : char) (fromIndex : Z) :
  0 <= fromIndex -> ~ In c s -> lastIndexOf s c fromIndex = -1.
Proof.
  intros Hfrom Hnot.
  destruct (lastIndexOf_found s c fromIndex Hfrom) as [H | [_ H]]; [exact H |].
  apply charIs_In in H. contradiction.
Qed.

Lemma loop_unfold (maxChunkLength : Z) (marker fileId sanitizedText : str)
      (fuel : nat) (st : LoopState) :
  loop maxChunkLength marker fileId sanitizedText (S fuel) st =
  if currentPos st <? len sanitizedText
  then loop maxChunkLength marker fileId sanitizedText fuel
            (body maxChunkLength marker fileId sanitizedText st)
  else Some st.
Proof. reflexivity. Qed.

Lemma across_sanitized : sanitize marker_across_boundary = marker_across_boundary.
Proof. vm_compute. reflexivity. Qed.

Lemma across_no_line_break : ~ In LF marker_across_boundary.
Proof.
  unfold marker_across_boundary. intros H. apply in_app_or in H. destruct H as [H | H].
  - apply repeat_spec in H. discriminate H.
  - cbn in H. repeat (destruct H as [H | H]; [discriminate H |]). exact H.
Qed.

(** The first boundary is the tentative one: there is no line break to go
    back to. *)
Lemma across_first_boundary :
  chooseEnd MAX_CHARS marker_across_boundary 0 = MAX_CHARS /\
  breakKind MAX_CHARS marker_across_boundary 0 = HardBreak.
Proof.
  unfold chooseEnd, breakKind. cbv zeta.
  rewrite lastIndexOf_absent;
    [| unfold MAX_CHARS; lia | exact across_no_line_break].
  split; vm_compute; reflexivity.
Qed.

Lemma across_first_iteration (fileId : str) :
  body MAX_CHARS MARKER fileId marker_across_boundary initial =
  mkState 4950 false
          [mkBlock (blockId fileId 0 4950) (repeat 97%N 4948 ++ lit "[&") NORMAL]
          [mkBoundary 0 4950 HardBreak false].
Proof.
  unfold body. change (currentPos initial) with 0.
  destruct across_first_boundary as [-> ->].
  vm_compute. reflexivity.
Qed.

Lemma across_run (fileId : str) :
  run MAX_CHARS MARKER fileId marker_across_boundary =
  Some (mkState 4952 false
          [mkBlock (blockId fileId 0 4950) (repeat 97%N 4948 ++ lit "[&") NORMAL;
           mkBlock (blockId fileId 1 2) (lit "$]") NORMAL]
          [mkBoundary 0 4950 HardBreak false;
           mkBoundary 4950 4952 Terminal false]).
Proof.
  unfold run. cbv zeta. rewrite across_sanitized.
  apply (loop_more_fuel _ _ _ _ 2); [| apply Nat.leb_le; vm_compute; reflexivity].
  rewrite loop_unfold. change (currentPos initial) with 0.
  replace (0 <? len marker_across_boundary) with true by (vm_compute; reflexivity).
  rewrite across_first_iteration.
  vm_compute. reflexivity.
Qed.

(** ** The properties of the specification *)

(** C1 (totality and coverage): for every input and every positive chunk
    length, the run ends, and the normalized text is the block contents in
    order, each followed by one line break where line 54 swallowed one and by
    nothing elsewhere; a line break is swallowed after the soft breaks and
    after no hard or terminal boundary.  The blocks are the slices the log
    records. *)
Theorem C1_reassembly (maxChunkLength : Z) (marker fileId text : str) :
  1 <= maxChunkLength ->
  exists st,
    run maxChunkLength marker fileId text = Some st /\
    splitTextWith maxChunkLength marker fileId text = Some (result st) /\
    length (trace st) = length (result st) /\
    sanitize text = reassemble (result st) (trace st) /\
    Forall (fun t => b_swallowed t = true <-> b_kind t = SoftBreak) (trace st) /\
    Forall2 (fun b t => content b = slice (sanitize text) (b_start t) (b_end t))
            (result st) (trace st).
Proof.
  intros Hmax.
  destruct (run_ends maxChunkLength marker fileId text Hmax) as (st & Hrun & HI & Hend).
  exists st. destruct HI as [Hpos Htr Htext Hsl Hsw Hsz Hcat].
  split; [exact Hrun |].
  split; [now apply splitTextWith_run |].
  split; [exact Htr |].
  split; [| split; [exact Hsw | exact Hsl]].
  rewrite <- Htext, Hend. unfold len. rewrite Nat2Z.id. symmetry. apply firstn_all.
Qed.

Lemma C1_reassembly_witness :
  1 <= 5 /\
  exists st,
    run 5 MARKER (lit "k3") (lit "ab" ++ [CR; LF] ++ lit "cdefghij") = Some st /\
    splitTextWith 5 MARKER (lit "k3") (lit "ab" ++ [CR; LF] ++ lit "cdefghij")
      = Some (result st) /\
    length (trace st) = length (result st) /\
    sanitize (lit "ab" ++ [CR; LF] ++ lit "cdefghij") = reassemble (result st) (trace st) /\
    Forall (fun t => b_swallowed t = true <-> b_kind t = SoftBreak) (trace st) /\
    Forall2 (fun b t => content b
                        = slice (sanitize (lit "ab" ++ [CR; LF] ++ lit "cdefghij"))
                                (b_start t) (b_end t))
            (result st) (trace st).
Proof.
  split; [lia |].
  apply (C1_reassembly 5 MARKER (lit "k3") (lit "ab" ++ [CR; LF] ++ lit "cdefghij")). lia.
Defined.

(** C2 (length bound): for every input and every positive chunk length, and
    so for [MAX_CHARS], every block but possibly the last has at most
    [maxChunkLength] characters of content. *)
Theorem C2_length_bound (maxChunkLength : Z) (marker fileId text : str) :
  1 <= maxChunkLength ->
  exists bs,
    splitTextWith maxChunkLength marker fileId text = Some bs /\
    forall (i : nat) (b : TextBlock),
      (S i < length bs)%nat -> nth_error bs i = Some b ->
      len (content b) <= maxChunkLength.
Proof.
  intros Hmax.
  destruct (block_sizes maxChunkLength marker fileId text Hmax) as (bs & Hbs & Hall).
  exists bs. split; [exact Hbs |].
  intros i b _ Hb. apply nth_error_In in Hb.
  rewrite Forall_forall in Hall. apply (Hall b Hb).
Qed.

Lemma C2_length_bound_witness :
  1 <= MAX_CHARS /\
  exists bs,
    splitText (lit "k3") (lit "first line" ++ [LF] ++ lit "second line") = Some bs /\
    forall (i : nat) (b : TextBlock),
      (S i < length bs)%nat -> nth_error bs i = Some b ->
      len (content b) <= MAX_CHARS.
Proof.
  split; [unfold MAX_CHARS; lia |].
  apply (C2_length_bound MAX_CHARS MARKER (lit "k3")
           (lit "first line" ++ [LF] ++ lit "second line")).
  unfold MAX_CHARS. lia.
Defined.

(** C3 (classification monotonicity): for every input and every positive
    chunk length, the categories of the blocks are some NORMAL, then at most
    one SPECIAL_TRIGGER, then POST_SPECIAL only; the automaton that never
    goes back from the triggered state accepts them. *)
Theorem C3_category_pattern (maxChunkLength : Z) (marker fileId text : str) :
  1 <= maxChunkLength ->
  exists bs,
    splitTextWith maxChunkLength marker fileId text = Some bs /\
    monotone_pattern (categories bs) /\
    accepts false (categories bs) = true.
Proof.
  intros Hmax.
  destruct (run_ends maxChunkLength marker fileId text Hmax) as (st & Hrun & HI & _).
  exists (result st). split; [now apply splitTextWith_run |].
  pose proof (categories_pattern _ _ (inv_categories _ _ _ HI)) as Hpat.
  split; [exact Hpat | now apply pattern_accepted].
Qed.

Lemma C3_category_pattern_witness :
  1 <= 5 /\
  exists bs,
    splitTextWith 5 MARKER (lit "k3") (lit "aaaaaaa[&$]bbbbbbbbbbb") = Some bs /\
    monotone_pattern (categories bs) /\
    accepts false (categories bs) = true.
Proof.
  split; [lia |].
  apply (C3_category_pattern 5 MARKER (lit "k3") (lit "aaaaaaa[&$]bbbbbbbbbbb")). lia.
Defined.

(** C4 (marker across a hard break): there is an input whose normalized text
    contains the marker and for which [splitText] yields no SPECIAL_TRIGGER
    block.  With [marker_across_boundary] the first boundary is a hard break
    between the second and the third character of the marker; neither of the
    two blocks contains the marker and both are NORMAL. *)
Theorem C4_marker_missed :
  exists text : str,
    includes (sanitize text) MARKER = true /\
    forall fileId : str,
      option_map contents (splitText fileId text)
      = Some [repeat 97%N 4948 ++ lit "[&"; lit "$]"] /\
      option_map (map (fun b => includes (content b) MARKER)) (splitText fileId text)
      = Some [false; false] /\
      option_map categories (splitText fileId text) = Some [NORMAL; NORMAL] /\
      option_map (fun st => map b_kind (trace st)) (run MAX_CHARS MARKER fileId text)
      = Some [HardBreak; Terminal].
Proof.
  exists marker_across_boundary. split; [vm_compute; reflexivity |].
  intros fileId. unfold splitText, splitTextWith. rewrite across_run.
  cbn [option_map result trace contents categories map content type b_kind].
  split; [reflexivity |]. split; [vm_compute; reflexivity |].
  split; reflexivity.
Qed.

(** C5 (the run token): for every input, chunk length and marker, two run
    tokens give the same contents and the same categories; with the
    constants of the source both runs end, so the two block sequences exist
    and agree on content and category. *)
Theorem C5_token_independence (text fileId1 fileId2 : str) :
  (forall (maxChunkLength : Z) (marker : str),
      option_map contents (splitTextWith maxChunkLength marker fileId1 text)
      = option_map contents (splitTextWith maxChunkLength marker fileId2 text) /\
      option_map categories (splitTextWith maxChunkLength marker fileId1 text)
      = option_map categories (splitTextWith maxChunkLength marker fileId2 text)) /\
  exists bs1 bs2 : list TextBlock,
    splitText fileId1 text = Some bs1 /\
    splitText fileId2 text = Some bs2 /\
    contents bs1 = contents bs2 /\
    categories bs1 = categories bs2.
Proof.
  split.
  - intros maxChunkLength marker. unfold splitTextWith.
    pose proof (run_same_but_ids maxChunkLength marker fileId1 fileId2 text) as H.
    destruct (run maxChunkLength marker fileId1 text) as [st1 |];
      destruct (run maxChunkLength marker fileId2 text) as [st2 |];
      try contradiction; [| split; reflexivity].
    destruct H as (_ & _ & Hc & Hk & _). cbn [option_map]. now rewrite Hc, Hk.
  - assert (Hmax : 1 <= MAX_CHARS) by (unfold MAX_CHARS; lia).
    destruct (run_ends MAX_CHARS MARKER fileId1 text Hmax) as (st1 & Hrun1 & _).
    destruct (run_ends MAX_CHARS MARKER fileId2 text Hmax) as (st2 & Hrun2 & _).
    pose proof (run_same_but_ids MAX_CHARS MARKER fileId1 fileId2 text) as H.
    rewrite Hrun1, Hrun2 in H. destruct H as (_ & _ & Hc & Hk & _).
    exists (result st1), (result st2). unfold splitText.
    split; [now apply splitTextWith_run |].
    split; [now apply splitTextWith_run |].
    split; assumption.
Qed.

(** C6, as the code has it: for every input, normalization replaces every
    CR LF pair met in one left-to-right pass by LF and leaves every other
    character as it is; the normalized text contains CR LF exactly when the
    input contains CR CR LF, so it is free of CR LF for every input without
    a CR before a CR LF pair. *)
Theorem C6_normalization (text : str) :
  replaces_crlf text (sanitize text) /\
  includes (sanitize text) [CR; LF] = includes text [CR; CR; LF].
Proof.
  split; [apply sanitize_replaces | apply sanitize_leaves_crlf].
Qed.

(** C6, as the specification has it, fails: the input CR CR LF is normalized
    to CR LF. *)
Lemma C6_crlf_survives :
  sanitize [CR; CR; LF] = [CR; LF] /\
  ~ (forall text : str, includes (sanitize text) [CR; LF] = false).
Proof.
  split; [reflexivity |].
  intros H. specialize (H [CR; CR; LF]). discriminate H.
Qed.

(** C7 (termination): for every input and every positive chunk length, each
    iteration moves the position strictly forward and keeps it inside the
    text; a soft break lies strictly after the position, a hard break moves
    the position by [maxChunkLength] exactly; the run ends with the whole
    text consumed, and any larger amount of fuel gives the same blocks. *)
Theorem C7_termination (maxChunkLength : Z) (marker fileId text : str) :
  1 <= maxChunkLength ->
  (forall st : LoopState,
      0 <= currentPos st < len (sanitize text) ->
      currentPos st < currentPos (body maxChunkLength marker fileId (sanitize text) st)
        <= len (sanitize text)) /\
  (forall pos : Z,
      0 <= pos < len (sanitize text) ->
      breakKind maxChunkLength (sanitize text) pos = SoftBreak ->
      pos < chooseEnd maxChunkLength (sanitize text) pos) /\
  (forall st : LoopState,
      0 <= currentPos st < len (sanitize text) ->
      breakKind maxChunkLength (sanitize text) (currentPos st) = HardBreak ->
      currentPos (body maxChunkLength marker fileId (sanitize text) st)
      = currentPos st + maxChunkLength) /\
  exists st,
    run maxChunkLength marker fileId text = Some st /\
    currentPos st = len (sanitize text) /\
    splitTextWith maxChunkLength marker fileId text = Some (result st) /\
    forall fuel : nat,
      (length (sanitize text) < fuel)%nat ->
      loop maxChunkLength marker fileId (sanitize text) fuel initial = Some st.
Proof.
  intros Hmax. split; [| split; [| split]].
  - intros st Hpos. now apply body_progress.
  - intros pos Hpos _. now apply chooseEnd_bounds.
  - intros st Hpos Hk. rewrite body_currentPos. cbv zeta.
    destruct (hard_break maxChunkLength (sanitize text) Hmax _ Hpos Hk) as [He Hc].
    rewrite Hc. exact He.
  - destruct (run_ends maxChunkLength marker fileId text Hmax) as (st & Hrun & _ & Hend).
    exists st. split; [exact Hrun |]. split; [exact Hend |].
    split; [now apply splitTextWith_run |].
    intros fuel Hfuel. apply (loop_more_fuel _ _ _ _ (S (length (sanitize text)))).
    + exact Hrun.
    + lia.
Qed.

Lemma C7_termination_witness :
  1 <= MAX_CHARS /\
  ((forall st : LoopState,
      0 <= currentPos st < len (sanitize scenario3) ->
      currentPos st < currentPos (body MAX_CHARS MARKER (lit "k3") (sanitize scenario3) st)
        <= len (sanitize scenario3)) /\
  (forall pos : Z,
      0 <= pos < len (sanitize scenario3) ->
      breakKind MAX_CHARS (sanitize scenario3) pos = SoftBreak ->
      pos < chooseEnd MAX_CHARS (sanitize scenario3) pos) /\
  (forall st : LoopState,
      0 <= currentPos st < len (sanitize scenario3) ->
      breakKind MAX_CHARS (sanitize scenario3) (currentPos st) = HardBreak ->
      currentPos (body MAX_CHARS MARKER (lit "k3") (sanitize scenario3) st)
      = currentPos st + MAX_CHARS) /\
  exists st,
    run MAX_CHARS MARKER (lit "k3") scenario3 = Some st /\
    currentPos st = len (sanitize scenario3) /\
    splitTextWith MAX_CHARS MARKER (lit "k3") scenario3 = Some (result st) /\
    forall fuel : nat,
      (length (sanitize scenario3) < fuel)%nat ->
      loop MAX_CHARS MARKER (lit "k3") (sanitize scenario3) fuel initial = Some st).
Proof.
  split; [unfold MAX_CHARS; lia |].
  apply (C7_termination MAX_CHARS MARKER (lit "k3") scenario3).
  unfold MAX_CHARS. lia.
Defined.

(** C8 (scenario 3): with chunk length 5 and the marker of the source, the
    input of the scenario gives five blocks, with these contents and
    categories, whatever the run token. *)
Theorem C8_scenario3 (fileId : str) :
  option_map (map (fun b => (content b, type b))) (splitTextWith 5 MARKER fileId scenario3)
  = Some [ (lit "aaaaa", NORMAL);
           (lit "bbbbb", NORMAL);
           (lit "[&$]c", SPECIAL_TRIGGER);
           (lit "c", POST_SPECIAL);
           (lit "ddddd", POST_SPECIAL) ].
Proof. vm_compute. reflexivity. Qed.

(** C10 (no empty block): for every input and every positive chunk length,
    the content of every block is non-empty. *)
Theorem C10_no_empty_block (maxChunkLength : Z) (marker fileId text : str) :
  1 <= maxChunkLength ->
  exists bs,
    splitTextWith maxChunkLength marker fileId text = Some bs /\
    Forall (fun b => content b <> []) bs.
Proof.
  intros Hmax.
  destruct (block_sizes maxChunkLength marker fileId text Hmax) as (bs & Hbs & Hall).
  exists bs. split; [exact Hbs |].
  eapply Forall_impl; [| exact Hall].
  intros b [Hb _] Hnil. rewrite Hnil in Hb. cbn in Hb. lia.
Qed.

Lemma C10_no_empty_block_witness :
  1 <= 1 /\
  exists bs,
    splitTextWith 1 MARKER (lit "k3") ([LF; LF] ++ lit "ab" ++ [LF; LF]) = Some bs /\
    Forall (fun b => content b <> []) bs.
Proof.
  split; [lia |].
  apply (C10_no_empty_block 1 MARKER (lit "k3") ([LF; LF] ++ lit "ab" ++ [LF; LF])). lia.
Defined.


(** * Further properties of [splitText] *)

(** ** Invariants in general *)

Lemma loop_keeps (maxChunkLength : Z) (marker fileId sanitizedText : str)
      (P : LoopState -> Prop) :
  (forall st, P st -> currentPos st < len sanitizedText ->
              P (body maxChunkLength marker fileId sanitizedText st)) ->
  forall (fuel : nat) (st st' : LoopState),
    P st -> loop maxChunkLength marker fileId sanitizedText fuel st = Some st' -> P st'.
Proof.
  intros Hstep. induction fuel as [| fuel IH]; intros st st' HP H; cbn [loop] in H;
    destruct (Z.ltb_spec (currentPos st) (len sanitizedText)) as [Hlt | Hge];
    try discriminate; try (inversion H; subst; exact HP).
  apply (IH (body maxChunkLength marker fileId sanitizedText st)); [| exact H].
  now apply Hstep.
Qed.

(** A property that the first state has and that an iteration keeps, the
    invariant of the loop helping, holds when the run ends. *)
Lemma run_keeps (maxChunkLength : Z) (marker fileId text : str) (P : LoopState -> Prop) :
  1 <= maxChunkLength ->
  P initial ->
  (forall st, Inv maxChunkLength (sanitize text) st -> P st ->
              currentPos st < len (sanitize text) ->
              P (body maxChunkLength marker fileId (sanitize text) st)) ->
  exists st, run maxChunkLength marker fileId text = Some st /\
             Inv maxChunkLength (sanitize text) st /\
             currentPos st = len (sanitize text) /\
             P st.
Proof.
  intros Hmax H0 Hstep.
  destruct (run_ends maxChunkLength marker fileId text Hmax) as (st & Hrun & HI & Hend).
  exists st. split; [exact Hrun |]. split; [exact HI |]. split; [exact Hend |].
  unfold run in Hrun. cbv zeta in Hrun.
  apply (loop_keeps maxChunkLength marker fileId (sanitize text)
           (fun st => Inv maxChunkLength (sanitize text) st /\ P st)) in Hrun.
  - apply Hrun.
  - intros st0 [HI0 HP0] Hlt. split; [now apply body_Inv | now apply Hstep].
  - split; [apply Inv_initial | exact H0].
Qed.

(** ** Identifiers *)

Lemma lit_cons (a : ascii) (s : string) : lit (String a s) = N_of_ascii a :: lit s.
Proof. reflexivity. Qed.

Lemma lit_inj (s s' : string) : lit s = lit s' -> s = s'.
Proof.
  revert s'. induction s as [| a s IH]; intros [| a' s'] H; try discriminate.
  - reflexivity.
  - rewrite !lit_cons in H. inversion H as [[Ha Hs]].
    f_equal; [| now apply IH].
    rewrite <- (ascii_N_embedding a), <- (ascii_N_embedding a'). now rewrite Ha.
Qed.

Lemma to_uint_nonnil (n : nat) : Nat.to_uint n <> Decimal.Nil.
Proof.
  rewrite <- (DecimalNat.Unsigned.of_to n) at 1.
  rewrite DecimalNat.Unsigned.to_of. apply DecimalFacts.unorm_nonnil.
Qed.

Lemma decimal_inj (n m : nat) : decimal n = decimal m -> n = m.
Proof.
  unfold decimal. intros H. apply lit_inj in H.
  apply (f_equal NilZero.uint_of_string) in H.
  rewrite !NilZero.usu in H by apply to_uint_nonnil.
  inversion H as [H']. now apply DecimalNat.Unsigned.to_uint_inj.
Qed.

Lemma digits_of_uint (d : Decimal.uint) :
  Forall (fun c => (48 <= c <= 57)%N) (lit (NilEmpty.string_of_uint d)).
Proof.
  induction d as [| d IH | d IH | d IH | d IH | d IH | d IH | d IH | d IH | d IH | d IH];
    cbn [NilEmpty.string_of_uint]; [constructor | ..];
    rewrite lit_cons; (constructor; [vm_compute; split; discriminate | exact IH]).
Qed.

Lemma decimal_digits (n : nat) : Forall (fun c => (48 <= c <= 57)%N) (decimal n).
Proof.
  unfold decimal, NilZero.string_of_uint.
  destruct (Nat.to_uint n) eqn:E; try (rewrite <- E; apply digits_of_uint).
  constructor; [vm_compute; split; discriminate | constructor].
Qed.

Lemma decimal_no_hyphen (n : nat) : ~ In 45%N (decimal n).
Proof.
  intros H. pose proof (decimal_digits n) as Hd. rewrite Forall_forall in Hd.
  apply Hd in H. lia.
Qed.

Lemma app_cons_unique {A : Type} (x : A) (a a' b b' : list A) :
  ~ In x a -> ~ In x a' -> a ++ x :: b = a' ++ x :: b' -> a = a' /\ b = b'.
Proof.
  revert a'. induction a as [| y a IH]; intros [| y' a'] Ha Ha' H; cbn in *.
  - inversion H. now split.
  - inversion H. subst. tauto.
  - inversion H. subst. tauto.
  - inversion H. subst. destruct (IH a') as [-> ->]; tauto.
Qed.

(** The identifier of line 47 determines the index and the length it was
    made from. *)
Lemma blockId_inj (fileId : str) (i j l l' : nat) :
  blockId fileId i l = blockId fileId j l' -> i = j /\ l = l'.
Proof.
  unfold blockId. intros H.
  apply app_inv_head in H. apply app_inv_head in H.
  change (lit "-") with [45%N] in H. cbn [app] in H. inversion H as [H'].
  apply app_cons_unique in H'; try apply decimal_no_hyphen.
  destruct H' as [Hi Hl]. split; now apply decimal_inj.
Qed.

Lemma body_identified (maxChunkLength : Z) (marker fileId sanitizedText : str)
      (st : LoopState) :
  identified fileId (result st) ->
  identified fileId (result (body maxChunkLength marker fileId sanitizedText st)).
Proof.
  intros H i b. rewrite body_result. cbv zeta. intros Hb.
  destruct (Nat.lt_ge_cases i (length (result st))) as [Hlt | Hge].
  - rewrite nth_error_app1 in Hb by exact Hlt. now apply H.
  - rewrite nth_error_app2 in Hb by exact Hge.
    destruct (i - length (result st))%nat as [| k] eqn:E.
    + cbn [nth_error] in Hb. inversion Hb. cbn [id content].
      assert (i = length (result st)) as -> by lia. reflexivity.
    + cbn [nth_error] in Hb. now destruct k.
Qed.

Lemma run_identified (maxChunkLength : Z) (marker fileId text : str) :
  1 <= maxChunkLength ->
  exists bs, splitTextWith maxChunkLength marker fileId text = Some bs /\
             identified fileId bs.
Proof.
  intros Hmax.
  destruct (run_keeps maxChunkLength marker fileId text
              (fun st => identified fileId (result st)) Hmax) as (st & Hrun & _ & _ & H).
  - intros i b Hb. now destruct i.
  - intros st _ H _. now apply body_identified.
  - exists (result st). split; [now apply splitTextWith_run | exact H].
Qed.

Lemma identified_NoDup (fileId : str) (bs : list TextBlock) :
  identified fileId bs -> NoDup (map id bs).
Proof.
  intros H. apply NoDup_nth_error. intros i j Hi Hij.
  rewrite length_map in Hi.
  rewrite !nth_error_map in Hij.
  destruct (nth_error bs i) as [b |] eqn:Ei; [| apply nth_error_None in Ei; lia].
  destruct (nth_error bs j) as [b' |] eqn:Ej; [| discriminate].
  cbn in Hij. inversion Hij as [Hid].
  rewrite (H i b Ei), (H j b' Ej) in Hid. now apply blockId_inj in Hid.
Qed.

(** X1 (identifiers): for every input and positive chunk length, the block
    at index [i] carries the identifier made of the run token, [i] and the
    length of its content, and no two blocks of a run have the same
    identifier. *)
Theorem X1_identifiers (maxChunkLength : Z) (marker fileId text : str) :
  1 <= maxChunkLength ->
  exists bs,
    splitTextWith maxChunkLength marker fileId text = Some bs /\
    (forall (i : nat) (b : TextBlock),
        nth_error bs i = Some b ->
        id b = lit "block-" ++ fileId ++ lit "-" ++ decimal i
               ++ lit "-" ++ decimal (length (content b))) /\
    NoDup (map id bs).
Proof.
  intros Hmax.
  destruct (run_identified maxChunkLength marker fileId text Hmax) as (bs & Hbs & H).
  exists bs. split; [exact Hbs |]. split; [exact H | now apply identified_NoDup with fileId].
Qed.

Lemma X1_identifiers_witness :
  1 <= MAX_CHARS /\
  exists bs,
    splitText (lit "k3") scenario3 = Some bs /\
    (forall (i : nat) (b : TextBlock),
        nth_error bs i = Some b ->
        id b = lit "block-" ++ lit "k3" ++ lit "-" ++ decimal i
               ++ lit "-" ++ decimal (length (content b))) /\
    NoDup (map id bs).
Proof.
  split; [unfold MAX_CHARS; lia |].
  apply (X1_identifiers MAX_CHARS MARKER (lit "k3") scenario3).
  unfold MAX_CHARS. lia.
Defined.

(** ** The number of blocks *)

Lemma reassemble_length (maxChunkLength : Z) (bs : list TextBlock) (tr : list Boundary) :
  length tr = length bs ->
  Forall (fun b => 1 <= len (content b) <= maxChunkLength) bs ->
  Z.of_nat (length bs) <= len (reassemble bs tr)
    <= (maxChunkLength + 1) * Z.of_nat (length bs) /\
  total_length bs <= len (reassemble bs tr).
Proof.
  revert tr. induction bs as [| b bs IH]; intros [| t tr] Hlen Hall; try discriminate.
  - cbn. lia.
  - inversion Hall as [| ? ? Hb Hbs]. subst.
    destruct (IH tr ltac:(cbn in Hlen; lia) Hbs) as [IH1 IH2].
    cbn [reassemble total_length fold_right length]. fold (total_length bs).
    unfold len in *. rewrite !length_app.
    assert (Hsep : (length (separator t) <= 1)%nat)
      by (unfold separator; destruct (b_swallowed t); cbn; lia).
    nia.
Qed.

Lemma sanitize_nil (text : str) : sanitize text = [] <-> text = [].
Proof.
  split; [| now intros ->].
  destruct text as [| c [| d rest]]; try discriminate; [reflexivity |].
  rewrite sanitize_cons2. destruct (N.eqb c CR && N.eqb d LF); discriminate.
Qed.

(** X2 (number of blocks): for every input and positive chunk length, there
    are at most as many blocks as the normalized text has characters, each
    block accounts for at most [maxChunkLength + 1] of them, and there is no
    block exactly when the input is the empty string. *)
Theorem X2_block_count (maxChunkLength : Z) (marker fileId text : str) :
  1 <= maxChunkLength ->
  exists bs,
    splitTextWith maxChunkLength marker fileId text = Some bs /\
    Z.of_nat (length bs) <= len (sanitize text)
      <= (maxChunkLength + 1) * Z.of_nat (length bs) /\
    (bs = [] <-> text = []).
Proof.
  intros Hmax.
  destruct (run_ends maxChunkLength marker fileId text Hmax) as (st & Hrun & HI & Hend).
  exists (result st). split; [now apply splitTextWith_run |].
  destruct HI as [Hpos Htr Htext Hsl Hsw Hsz Hcat].
  assert (Hs : sanitize text = reassemble (result st) (trace st)).
  { rewrite <- Htext, Hend. unfold len. rewrite Nat2Z.id. symmetry. apply firstn_all. }
  destruct (reassemble_length maxChunkLength _ _ Htr Hsz) as [Hcount _].
  rewrite <- Hs in Hcount. split; [exact Hcount |].
  rewrite <- sanitize_nil. split.
  - intros Hnil. rewrite Hnil in Hs. exact Hs.
  - intros Hnil. rewrite Hnil in Hcount. cbn in Hcount.
    destruct (result st); [reflexivity | cbn in Hcount; lia].
Qed.

Lemma X2_block_count_witness :
  1 <= MAX_CHARS /\
  exists bs,
    splitText (lit "k3") scenario3 = Some bs /\
    Z.of_nat (length bs) <= len (sanitize scenario3)
      <= (MAX_CHARS + 1) * Z.of_nat (length bs) /\
    (bs = [] <-> scenario3 = []).
Proof.
  split; [unfold MAX_CHARS; lia |].
  apply (X2_block_count MAX_CHARS MARKER (lit "k3") scenario3).
  unfold MAX_CHARS. lia.
Defined.

(** ** A text that fits in one chunk *)

Lemma slice_all (s : str) : slice s 0 (len s) = s.
Proof.
  pose proof (len_nonneg s). rewrite slice_inside by lia.
  cbn [Z.to_nat skipn]. rewrite Z.sub_0_r. unfold len. rewrite Nat2Z.id. apply firstn_all.
Qed.

Lemma charIs_at_end (s : str) (c : char) : charIs s (len s) c = false.
Proof.
  destruct (charIs s (len s) c) eqn:E; [| reflexivity].
  apply charIs_inside in E. lia.
Qed.

(** X3 (a text within the limit): when the normalized text is not empty and
    has at most [maxChunkLength] characters, the result is one block whose
    content is the whole normalized text, line breaks included; it is
    SPECIAL_TRIGGER when the text contains the marker and NORMAL
    otherwise. *)
Theorem X3_single_block (maxChunkLength : Z) (marker fileId text : str) :
  0 < len (sanitize text) <= maxChunkLength ->
  splitTextWith maxChunkLength marker fileId text =
  Some [mkBlock (blockId fileId 0 (length (sanitize text)))
                (sanitize text)
                (if includes (sanitize text) marker then SPECIAL_TRIGGER else NORMAL)].
Proof.
  intros [Hpos Hfit]. unfold splitTextWith, run. cbv zeta.
  rewrite loop_unfold. change (currentPos initial) with 0.
  destruct (Z.ltb_spec 0 (len (sanitize text))) as [_ | Hge]; [| lia].
  assert (Hend : chooseEnd maxChunkLength (sanitize text) 0 = len (sanitize text)).
  { unfold chooseEnd. cbv zeta.
    destruct (Z.ltb_spec (0 + maxChunkLength) (len (sanitize text))); [lia | reflexivity]. }
  assert (Hbody : body maxChunkLength marker fileId (sanitize text) initial =
                  mkState (len (sanitize text)) (includes (sanitize text) marker)
                    [mkBlock (blockId fileId 0 (length (sanitize text))) (sanitize text)
                       (if includes (sanitize text) marker then SPECIAL_TRIGGER else NORMAL)]
                    [mkBoundary 0 (len (sanitize text))
                       (breakKind maxChunkLength (sanitize text) 0) false]).
  { unfold body. change (currentPos initial) with 0.
    rewrite Hend, slice_all, charIs_at_end.
    cbn [specialTriggered result trace initial classify length app].
    now destruct (includes (sanitize text) marker). }
  rewrite Hbody.
  destruct (length (sanitize text)) as [| n] eqn:E; cbn [loop currentPos];
    rewrite Z.ltb_irrefl; reflexivity.
Qed.

Lemma X3_single_block_witness :
  0 < len (sanitize (lit "one" ++ [CR; LF] ++ lit "two")) <= MAX_CHARS /\
  splitText (lit "k3") (lit "one" ++ [CR; LF] ++ lit "two") =
  Some [mkBlock (blockId (lit "k3") 0 (length (sanitize (lit "one" ++ [CR; LF] ++ lit "two"))))
                (sanitize (lit "one" ++ [CR; LF] ++ lit "two"))
                (if includes (sanitize (lit "one" ++ [CR; LF] ++ lit "two")) MARKER
                 then SPECIAL_TRIGGER else NORMAL)].
Proof.
  split; [vm_compute; split; [reflexivity | discriminate] |].
  apply (X3_single_block MAX_CHARS MARKER (lit "k3") (lit "one" ++ [CR; LF] ++ lit "two")).
  vm_compute. split; [reflexivity | discriminate].
Defined.

(** ** Where the boundaries fall *)

Lemma computed_window (maxChunkLength : Z) (sanitizedText : str) (t : Boundary) :
  1 <= maxChunkLength ->
  computed maxChunkLength sanitizedText t -> window_rule maxChunkLength sanitizedText t.
Proof.
  intros Hmax (Hpos & Hend & Hkind). unfold window_rule. rewrite Hkind, Hend.
  unfold breakKind, chooseEnd. cbv zeta.
  set (pos := b_start t) in *. set (tentative := pos + maxChunkLength).
  destruct (Z.ltb_spec tentative (len sanitizedText)) as [Hlt | Hge]; [| split; [reflexivity | lia]].
  assert (Htent : 0 <= tentative \/ tentative < 0) by lia.
  destruct (Z.gtb_spec (lastIndexOf sanitizedText LF tentative) pos) as [Hgt | Hle].
  - destruct Htent as [Htent | Htent].
    + destruct (lastIndexOf_found sanitizedText LF tentative Htent) as [H | [Hr Hc]]; [lia |].
      split; [exact Hc |]. split; [unfold tentative in *; lia |].
      intros j Hj. destruct (charIs sanitizedText j LF) eqn:E; [| reflexivity].
      pose proof (lastIndexOf_greatest sanitizedText LF tentative j
                    ltac:(unfold tentative; lia) E). lia.
    + exfalso. unfold tentative in *. lia.
  - split; [reflexivity |]. split; [exact Hlt |].
    intros j Hj. destruct (charIs sanitizedText j LF) eqn:E; [| reflexivity].
    pose proof (lastIndexOf_greatest sanitizedText LF tentative j
                  ltac:(unfold tentative; lia) E). lia.
Qed.

Lemma body_computed (maxChunkLength : Z) (marker fileId sanitizedText : str)
      (st : LoopState) :
  0 <= currentPos st < len sanitizedText ->
  Forall (computed maxChunkLength sanitizedText) (trace st) ->
  Forall (computed maxChunkLength sanitizedText)
         (trace (body maxChunkLength marker fileId sanitizedText st)).
Proof.
  intros Hpos H. rewrite body_trace. cbv zeta.
  apply Forall_app. split; [exact H |]. constructor; [| constructor].
  unfold computed. cbn [b_start b_end b_kind]. repeat split; lia || reflexivity.
Qed.

(** X4 (the window of a boundary): for every input and positive chunk
    length, every chunk is the slice between the two ends its boundary
    records, and the boundary obeys the rule of its kind.  A soft break is a
    line break at most [maxChunkLength] characters after the start, and no
    line break lies between it and the end of that window: it is the last
    one within reach.  A hard break lies exactly [maxChunkLength] characters
    after the start, and none of the [maxChunkLength] characters after the
    first one of the chunk is a line break.  A terminal boundary is the end
    of the text, at most [maxChunkLength] characters after the start. *)
Theorem X4_break_window (maxChunkLength : Z) (marker fileId text : str) :
  1 <= maxChunkLength ->
  exists st,
    run maxChunkLength marker fileId text = Some st /\
    splitTextWith maxChunkLength marker fileId text = Some (result st) /\
    Forall2 (fun b t => content b = slice (sanitize text) (b_start t) (b_end t))
            (result st) (trace st) /\
    Forall (window_rule maxChunkLength (sanitize text)) (trace st).
Proof.
  intros Hmax.
  destruct (run_keeps maxChunkLength marker fileId text
              (fun st => Forall (computed maxChunkLength (sanitize text)) (trace st)) Hmax)
    as (st & Hrun & HI & _ & H).
  - constructor.
  - intros st HI H Hlt. apply body_computed; [| exact H].
    pose proof (inv_pos _ _ _ HI). lia.
  - exists st. split; [exact Hrun |]. split; [now apply splitTextWith_run |].
    split; [apply (inv_slices _ _ _ HI) |].
    eapply Forall_impl; [| exact H]. intros t. now apply computed_window.
Qed.

Lemma X4_break_window_witness :
  1 <= 5 /\
  exists st,
    run 5 MARKER (lit "k3") scenario3 = Some st /\
    splitTextWith 5 MARKER (lit "k3") scenario3 = Some (result st) /\
    Forall2 (fun b t => content b = slice (sanitize scenario3) (b_start t) (b_end t))
            (result st) (trace st) /\
    Forall (window_rule 5 (sanitize scenario3)) (trace st).
Proof.
  split; [lia |].
  apply (X4_break_window 5 MARKER (lit "k3") scenario3). lia.
Defined.

(** ** The order of the chunks *)

Lemma follows_snoc (start : Z) (tr : list Boundary) (t : Boundary) :
  follows start tr ->
  b_start t = position_after start tr ->
  b_start t < b_end t ->
  follows start (tr ++ [t]).
Proof.
  revert start. induction tr as [| t0 tr IH]; intros start H Ht Hlt; cbn in *.
  - repeat split; assumption.
  - destruct H as (H1 & H2 & H3). repeat split; try assumption. now apply IH.
Qed.

Lemma position_after_snoc (start : Z) (tr : list Boundary) (t : Boundary) :
  position_after start (tr ++ [t]) = next_start t.
Proof.
  revert start. induction tr as [| t0 tr IH]; intros start; cbn; [reflexivity | apply IH].
Qed.

(** X5 (the order of the chunks): for every input and positive chunk
    length, the first chunk starts at position 0, every chunk is not empty
    and starts where the one before it ended, one character further when a
    line break was swallowed, and the position after the last chunk is the
    length of the normalized text: the chunks are taken from left to right
    and do not overlap. *)
Theorem X5_chunks_in_order (maxChunkLength : Z) (marker fileId text : str) :
  1 <= maxChunkLength ->
  exists st,
    run maxChunkLength marker fileId text = Some st /\
    splitTextWith maxChunkLength marker fileId text = Some (result st) /\
    Forall2 (fun b t => content b = slice (sanitize text) (b_start t) (b_end t))
            (result st) (trace st) /\
    follows 0 (trace st) /\
    position_after 0 (trace st) = len (sanitize text).
Proof.
  intros Hmax.
  destruct (run_keeps maxChunkLength marker fileId text
              (fun st => follows 0 (trace st) /\
                         position_after 0 (trace st) = currentPos st) Hmax)
    as (st & Hrun & HI & Hend & Hf & Hp).
  - split; [exact I | reflexivity].
  - intros st HI [Hf Hp] Hlt. pose proof (inv_pos _ _ _ HI) as Hpos.
    rewrite body_trace, body_currentPos. cbv zeta. split.
    + apply follows_snoc; [exact Hf | cbn [b_start]; now rewrite Hp |].
      cbn [b_start b_end].
      apply (chooseEnd_bounds maxChunkLength (sanitize text) Hmax). lia.
    + rewrite position_after_snoc. reflexivity.
  - exists st. split; [exact Hrun |]. split; [now apply splitTextWith_run |].
    split; [apply (inv_slices _ _ _ HI) |]. split; [exact Hf | now rewrite Hp].
Qed.

Lemma X5_chunks_in_order_witness :
  1 <= 5 /\
  exists st,
    run 5 MARKER (lit "k3") scenario3 = Some st /\
    splitTextWith 5 MARKER (lit "k3") scenario3 = Some (result st) /\
    Forall2 (fun b t => content b = slice (sanitize scenario3) (b_start t) (b_end t))
            (result st) (trace st) /\
    follows 0 (trace st) /\
    position_after 0 (trace st) = len (sanitize scenario3).
Proof.
  split; [lia |].
  apply (X5_chunks_in_order 5 MARKER (lit "k3") scenario3). lia.
Defined.

(** ** The marker and the categories *)

Lemma startsWith_firstn (n : nat) (s p : str) :
  startsWith (firstn n s) p = true -> startsWith s p = true.
Proof.
  revert n s. induction p as [| c p IH]; intros n s H; [reflexivity |].
  destruct s as [| d s]; [now rewrite firstn_nil in H |].
  destruct n as [| n]; [discriminate H |].
  cbn [firstn startsWith] in *. apply andb_prop in H. destruct H as [Hd Hp].
  rewrite Hd. cbn [andb]. now apply (IH n).
Qed.

Lemma includes_nil_needle (s : str) : includes s [] = true.
Proof. now destruct s. Qed.

Lemma includes_firstn (n : nat) (s p : str) :
  includes (firstn n s) p = true -> includes s p = true.
Proof.
  revert n. induction s as [| d s IH]; intros n H; [now rewrite firstn_nil in H |].
  destruct n as [| n].
  - cbn in H. rewrite orb_false_r in H. destruct p; [apply includes_nil_needle | discriminate H].
  - cbn [firstn includes] in *. apply orb_prop in H. destruct H as [H | H].
    + apply (startsWith_firstn (S n) (d :: s)) in H. now rewrite H.
    + apply IH in H. rewrite H. apply orb_true_r.
Qed.

Lemma includes_skipn (n : nat) (s p : str) :
  includes (skipn n s) p = true -> includes s p = true.
Proof.
  revert s. induction n as [| n IH]; intros s H; [exact H |].
  destruct s as [| d s]; [exact H |].
  cbn [skipn] in H. apply IH in H. cbn [includes]. rewrite H. apply orb_true_r.
Qed.

(** What a slice contains, the string contains. *)
Lemma includes_slice (s p : str) (a b : Z) :
  includes (slice s a b) p = true -> includes s p = true.
Proof.
  unfold slice. intros H. apply includes_firstn in H. now apply includes_skipn in H.
Qed.

Lemma seen_app (marker : str) (bs bs' : list TextBlock) :
  seen marker (bs ++ bs') = seen marker bs || seen marker bs'.
Proof. apply existsb_app. Qed.

Lemma classify_flag (triggered containsSpecial : bool) :
  snd (classify triggered containsSpecial) = triggered || containsSpecial.
Proof. now destruct triggered, containsSpecial. Qed.

Lemma body_classified (maxChunkLength : Z) (marker fileId sanitizedText : str)
      (st : LoopState) :
  classified marker st ->
  classified marker (body maxChunkLength marker fileId sanitizedText st).
Proof.
  intros [Hflag Hcat]. unfold classified.
  rewrite body_specialTriggered, body_result. cbv zeta. split.
  - rewrite classify_flag, seen_app, Hflag. cbn [seen existsb content].
    now rewrite orb_false_r.
  - intros i b Hb.
    destruct (Nat.lt_ge_cases i (length (result st))) as [Hlt | Hge].
    + rewrite nth_error_app1 in Hb by exact Hlt.
      rewrite firstn_app. replace (i - length (result st))%nat with 0%nat by lia.
      cbn [firstn]. rewrite app_nil_r. now apply Hcat.
    + rewrite nth_error_app2 in Hb by exact Hge.
      destruct (i - length (result st))%nat as [| k] eqn:E.
      * cbn [nth_error] in Hb. inversion Hb. cbn [type content].
        rewrite firstn_app. replace (i - length (result st))%nat with 0%nat by lia.
        cbn [firstn]. rewrite app_nil_r, firstn_all2 by lia. now rewrite Hflag.
      * cbn [nth_error] in Hb. now destruct k.
Qed.

Lemma run_classified (maxChunkLength : Z) (marker fileId text : str) :
  1 <= maxChunkLength ->
  exists st, run maxChunkLength marker fileId text = Some st /\
             Inv maxChunkLength (sanitize text) st /\
             classified marker st.
Proof.
  intros Hmax.
  destruct (run_keeps maxChunkLength marker fileId text (classified marker) Hmax)
    as (st & Hrun & HI & _ & H).
  - split; [reflexivity |]. intros i b Hb. now destruct i.
  - intros st _ H _. now apply body_classified.
  - now exists st.
Qed.

(** X6 (what decides the category): for every input and positive chunk
    length, a block is POST_SPECIAL exactly when the content of some block
    before it contains the marker; otherwise it is SPECIAL_TRIGGER when its
    own content contains the marker and NORMAL when it does not. *)
Theorem X6_category_rule (maxChunkLength : Z) (marker fileId text : str) :
  1 <= maxChunkLength ->
  exists bs,
    splitTextWith maxChunkLength marker fileId text = Some bs /\
    forall (i : nat) (b : TextBlock),
      nth_error bs i = Some b ->
      type b = if seen marker (firstn i bs) then POST_SPECIAL
               else if includes (content b) marker then SPECIAL_TRIGGER
               else NORMAL.
Proof.
  intros Hmax.
  destruct (run_classified maxChunkLength marker fileId text Hmax) as (st & Hrun & _ & _ & H).
  exists (result st). split; [now apply splitTextWith_run |].
  intros i b Hb. rewrite (H i b Hb). unfold classify.
  now destruct (seen marker (firstn i (result st))), (includes (content b) marker).
Qed.

Lemma X6_category_rule_witness :
  1 <= 5 /\
  exists bs,
    splitTextWith 5 MARKER (lit "k3") scenario3 = Some bs /\
    forall (i : nat) (b : TextBlock),
      nth_error bs i = Some b ->
      type b = if seen MARKER (firstn i bs) then POST_SPECIAL
               else if includes (content b) MARKER then SPECIAL_TRIGGER
               else NORMAL.
Proof.
  split; [lia |].
  apply (X6_category_rule 5 MARKER (lit "k3") scenario3). lia.
Defined.

Lemma seen_none (marker : str) (bs : list TextBlock) :
  Forall (fun b => includes (content b) marker = false) bs -> seen marker bs = false.
Proof.
  induction 1 as [| b bs Hb _ IH]; [reflexivity |].
  cbn [seen existsb]. rewrite Hb. exact IH.
Qed.

Lemma Forall_firstn {A : Type} (P : A -> Prop) (n : nat) (l : list A) :
  Forall P l -> Forall P (firstn n l).
Proof.
  intros H. revert n. induction H as [| x l Hx _ IH]; intros [| n]; cbn; constructor; auto.
Qed.

Lemma slices_without (s marker : str) (bs : list TextBlock) (tr : list Boundary) :
  includes s marker = false ->
  Forall2 (fun b t => content b = slice s (b_start t) (b_end t)) bs tr ->
  Forall (fun b => includes (content b) marker = false) bs.
Proof.
  intros Hno Hsl. induction Hsl as [| b t bs tr Hb _ IH]; constructor; [| exact IH].
  destruct (includes (content b) marker) eqn:E; [| reflexivity].
  rewrite Hb in E. apply includes_slice in E. congruence.
Qed.

(** X7 (no marker, no trigger): for every positive chunk length, when the
    normalized text does not contain the marker, no block content contains
    it and every block is NORMAL. *)
Theorem X7_without_marker (maxChunkLength : Z) (marker fileId text : str) :
  1 <= maxChunkLength ->
  includes (sanitize text) marker = false ->
  exists bs,
    splitTextWith maxChunkLength marker fileId text = Some bs /\
    Forall (fun b => includes (content b) marker = false) bs /\
    Forall (fun b => type b = NORMAL) bs.
Proof.
  intros Hmax Hno.
  destruct (run_classified maxChunkLength marker fileId text Hmax)
    as (st & Hrun & HI & _ & Hcat).
  exists (result st). split; [now apply splitTextWith_run |].
  pose proof (slices_without _ _ _ _ Hno (inv_slices _ _ _ HI)) as Hclean.
  split; [exact Hclean |].
  apply Forall_forall. intros b Hb.
  apply In_nth_error in Hb. destruct Hb as [i Hi].
  rewrite (Hcat i b Hi).
  rewrite (seen_none marker (firstn i (result st))) by now apply Forall_firstn.
  rewrite Forall_forall in Hclean. apply nth_error_In in Hi.
  now rewrite (Hclean b Hi).
Qed.

Lemma X7_without_marker_witness :
  1 <= MAX_CHARS /\
  includes (sanitize (lit "no marker here [&]")) MARKER = false /\
  exists bs,
    splitText (lit "k3") (lit "no marker here [&]") = Some bs /\
    Forall (fun b => includes (content b) MARKER = false) bs /\
    Forall (fun b => type b = NORMAL) bs.
Proof.
  split; [unfold MAX_CHARS; lia |]. split; [reflexivity |].
  apply (X7_without_marker MAX_CHARS MARKER (lit "k3") (lit "no marker here [&]")).
  - unfold MAX_CHARS. lia.
  - reflexivity.
Defined.

(** ** More about normalization *)

Lemma sanitize_shorter (text : str) : (length (sanitize text) <= length text)%nat.
Proof.
  functional induction (sanitize text); cbn [length] in *; lia.
Qed.

Lemma sanitize_keeps_others (text : str) : without_CR (sanitize text) = without_CR text.
Proof.
  unfold without_CR. functional induction (sanitize text).
  - reflexivity.
  - reflexivity.
  - apply andb_prop in e1. destruct e1 as [Hc Hd].
    apply N.eqb_eq in Hc, Hd. subst. cbn [filter]. rewrite IHs. reflexivity.
  - cbn [filter]. cbn [filter] in IHs. now rewrite IHs.
Qed.

Lemma sanitize_fixed (text : str) :
  sanitize text = text <-> includes text [CR; LF] = false.
Proof.
  functional induction (sanitize text).
  - split; reflexivity.
  - split; [intros _; cbn; now rewrite !andb_false_r | intros _; reflexivity].
  - apply andb_prop in e1. destruct e1 as [Hc Hd].
    apply N.eqb_eq in Hc, Hd. subst.
    split; [intros H; inversion H | intros H; cbn in H; discriminate H].
  - change (includes (c :: d :: rest') [CR; LF])
      with (N.eqb c CR && (N.eqb d LF && true) || includes (d :: rest') [CR; LF]).
    rewrite andb_true_r, e1. cbn [orb]. split; intros H.
    + apply IHs. injection H as H. exact H.
    + f_equal. now apply IHs.
Qed.

(** X8 (what normalization changes): for every input, the normalized text
    is not longer than the input; apart from carriage returns it has the
    same characters in the same order, so only carriage returns are ever
    removed and every line break stays; and it is the input itself exactly
    when the input contains no CR LF pair. *)
Theorem X8_only_CR_removed (text : str) :
  len (sanitize text) <= len text /\
  without_CR (sanitize text) = without_CR text /\
  (sanitize text = text <-> includes text [CR; LF] = false).
Proof.
  split; [| split].
  - unfold len. pose proof (sanitize_shorter text). lia.
  - apply sanitize_keeps_others.
  - apply sanitize_fixed.
Qed.

(** X9 (normalizing twice): when the input has no carriage return just
    before a CR LF pair, normalizing the normalized text changes nothing. *)
Theorem X9_sanitize_twice (text : str) :
  includes text [CR; CR; LF] = false ->
  sanitize (sanitize text) = sanitize text.
Proof.
  intros H. apply sanitize_fixed. now rewrite sanitize_leaves_crlf.
Qed.

Lemma X9_sanitize_twice_witness :
  includes (lit "a" ++ [CR; LF; CR] ++ lit "b" ++ [CR; LF]) [CR; CR; LF] = false /\
  sanitize (sanitize (lit "a" ++ [CR; LF; CR] ++ lit "b" ++ [CR; LF]))
  = sanitize (lit "a" ++ [CR; LF; CR] ++ lit "b" ++ [CR; LF]).
Proof.
  split; [reflexivity |].
  apply (X9_sanitize_twice (lit "a" ++ [CR; LF; CR] ++ lit "b" ++ [CR; LF])).
  reflexivity.
Defined.

(** * The component *)

(** ** What is on the screen *)

Lemma Inv_whole_text (maxChunkLength : Z) (s : str) (st : LoopState) :
  Inv maxChunkLength s st -> currentPos st = len s ->
  s = reassemble (result st) (trace st).
Proof.
  intros HI Hend. rewrite <- (inv_text _ _ _ HI), Hend.
  unfold len. rewrite Nat2Z.id. symmetry. apply firstn_all.
Qed.

(** What [splitText] gives, for the handlers that keep it. *)
Lemma splitText_blocks (fileId text : str) (bs : list TextBlock) :
  splitText fileId text = Some bs ->
  (bs = [] <-> text = []) /\
  total_length bs <= len text /\
  Forall (fun b => 1 <= len (content b) <= MAX_CHARS) bs /\
  NoDup (map id bs) /\
  monotone_pattern (categories bs).
Proof.
  intros Hbs.
  assert (Hmax : 1 <= MAX_CHARS) by (unfold MAX_CHARS; lia).
  destruct (run_keeps MAX_CHARS MARKER fileId text
              (fun st => identified fileId (result st)) Hmax) as (st & Hrun & HI & Hend & Hid).
  - intros i b Hb. now destruct i.
  - intros st _ H _. now apply body_identified.
  - apply splitTextWith_run in Hrun. unfold splitText in Hbs.
    rewrite Hrun in Hbs. inversion Hbs. subst bs. clear Hbs.
    pose proof (Inv_whole_text _ _ _ HI Hend) as Hs.
    destruct (reassemble_length MAX_CHARS _ _ (inv_trace _ _ _ HI) (inv_sizes _ _ _ HI))
      as [Hcount Htotal].
    rewrite <- Hs in Hcount, Htotal.
    pose proof (sanitize_shorter text) as Hshort.
    split; [| split; [| split; [| split]]].
    + rewrite <- sanitize_nil. split.
      * intros Hnil. rewrite Hnil in Hs. exact Hs.
      * intros Hnil. rewrite Hnil in Hcount. cbn in Hcount.
        destruct (result st); [reflexivity | cbn in Hcount; lia].
    + unfold len in *. lia.
    + apply (inv_sizes _ _ _ HI).
    + now apply identified_NoDup with fileId.
    + apply (categories_pattern _ _ (inv_categories _ _ _ HI)).
Qed.

Lemma reachable_screen (st : AppState) :
  reachable st ->
  (0 < totalChars st <-> blocks st <> []) /\
  total_length (blocks st) <= totalChars st /\
  Forall (fun b => 1 <= len (content b) <= MAX_CHARS) (blocks st) /\
  NoDup (map id (blocks st)) /\
  monotone_pattern (categories (blocks st)).
Proof.
  induction 1 as [| st st' fileId file _ IH Hup | st confirmed _ IH | st _ IH
                  | st rendered index written _ IH].
  - cbn. split; [split; [lia | congruence] |].
    split; [lia |]. split; [constructor |]. split; [constructor |].
    exists 0%nat. now left.
  - destruct file as [[text |] |]; cbn in Hup; try (inversion Hup; subst; exact IH).
    destruct (splitText fileId text) as [bs |] eqn:Hbs; [| discriminate].
    inversion Hup. subst st'. cbn [blocks totalChars].
    destruct (splitText_blocks fileId text bs Hbs) as (Hnil & Htot & Hsz & Hid & Hpat).
    split; [| now repeat split].
    rewrite Hnil. unfold len. destruct text; cbn; split; intros; congruence || lia.
  - destruct confirmed; [| exact IH]. cbn.
    split; [split; [lia | congruence] |].
    split; [lia |]. split; [constructor |]. split; [constructor |].
    exists 0%nat. now left.
  - exact IH.
  - unfold handleButtonClick. destruct (copyRequest rendered index); [| exact IH].
    destruct written; exact IH.
Qed.

(** X10 (what is on the screen): in every state the component can reach,
    whatever the handlers were given and in whatever order they ran, the
    header statistics are shown ([totalChars > 0]) exactly when there are
    blocks; the contents of the blocks together have at most [totalChars]
    characters; every block has between 1 and [MAX_CHARS] characters; no
    two blocks have the same identifier, which is their React key; and the
    categories follow the pattern of NORMAL, one SPECIAL_TRIGGER,
    POST_SPECIAL. *)
Theorem X10_screen_invariant (st : AppState) :
  reachable st ->
  (0 < totalChars st <-> blocks st <> []) /\
  total_length (blocks st) <= totalChars st /\
  Forall (fun b => 1 <= len (content b) <= MAX_CHARS) (blocks st) /\
  NoDup (map id (blocks st)) /\
  monotone_pattern (categories (blocks st)).
Proof. apply reachable_screen. Qed.

Lemma X10_screen_invariant_witness :
  reachable uploaded_scenario3 /\
  (0 < totalChars uploaded_scenario3 <-> blocks uploaded_scenario3 <> []) /\
  total_length (blocks uploaded_scenario3) <= totalChars uploaded_scenario3 /\
  Forall (fun b => 1 <= len (content b) <= MAX_CHARS) (blocks uploaded_scenario3) /\
  NoDup (map id (blocks uploaded_scenario3)) /\
  monotone_pattern (categories (blocks uploaded_scenario3)).
Proof.
  assert (H : reachable uploaded_scenario3).
  { apply (reach_toggle (toggleDarkMode uploaded_scenario3)).
    apply (reach_upload initialApp _ (lit "k3") (Some (Extracted scenario3)));
      [apply reach_initial | vm_compute; reflexivity]. }
  split; [exact H | apply (X10_screen_invariant uploaded_scenario3 H)].
Defined.

(** ** Export *)

Lemma exportFrom_texts (k : nat) (bs : list TextBlock) :
  map d_text (exportFrom k bs) = contents bs.
Proof.
  revert k. induction bs as [| b bs IH]; intros k; [reflexivity |].
  cbn [exportFrom map contents d_text]. f_equal. apply IH.
Qed.

Lemma exportFrom_nth (k i : nat) (bs : list TextBlock) (d : Download) :
  nth_error (exportFrom k bs) i = Some d ->
  d_name d = lit "bloque_" ++ decimal (k + i + 1) ++ lit ".txt" /\
  d_delay d = Z.of_nat (k + i) * 200.
Proof.
  revert k i. induction bs as [| b bs IH]; intros k i H; [now destruct i |].
  destruct i as [| i]; cbn [exportFrom nth_error] in H.
  - inversion H. cbn [d_name d_delay]. now rewrite Nat.add_0_r.
  - apply IH in H. now replace (k + S i)%nat with (S k + i)%nat by lia.
Qed.

Lemma exportFrom_length (k : nat) (bs : list TextBlock) :
  length (exportFrom k bs) = length bs.
Proof.
  revert k. induction bs as [| b bs IH]; intros k; [reflexivity |].
  cbn [exportFrom length]. f_equal. apply IH.
Qed.

Lemma exportFrom_names (k : nat) (bs : list TextBlock) :
  NoDup (map d_name (exportFrom k bs)).
Proof.
  apply NoDup_nth_error. intros i j Hi Hij.
  rewrite !nth_error_map in Hij. rewrite length_map in Hi.
  destruct (nth_error (exportFrom k bs) i) as [d |] eqn:Ei;
    [| apply nth_error_None in Ei; lia].
  destruct (nth_error (exportFrom k bs) j) as [d' |] eqn:Ej; [| discriminate].
  cbn in Hij. inversion Hij as [Hname].
  apply exportFrom_nth in Ei, Ej. destruct Ei as [Ei _], Ej as [Ej _].
  rewrite Ei, Ej in Hname.
  apply app_inv_head in Hname. apply app_inv_tail in Hname.
  apply decimal_inj in Hname. lia.
Qed.

(** X11 (export): [handleExportAll] downloads nothing when the user
    declines the question, which states the number of blocks.  Otherwise it
    makes one download per block, in the order of the blocks: the texts are
    the block contents, the download at index [i] is named
    [bloque_<i+1>.txt] and is clicked after [200 * i] milliseconds, and no
    two downloads have the same name. *)
Theorem X11_export (confirm : str -> bool) (bs : list TextBlock) :
  map d_text (handleExportAll confirm bs)
  = (if confirm (exportQuestion (length bs)) then contents bs else []) /\
  NoDup (map d_name (handleExportAll confirm bs)) /\
  forall (i : nat) (d : Download),
    nth_error (handleExportAll confirm bs) i = Some d ->
    d_name d = lit "bloque_" ++ decimal (i + 1) ++ lit ".txt" /\
    d_delay d = 200 * Z.of_nat i.
Proof.
  unfold handleExportAll.
  destruct (Z.eqb_spec (Z.of_nat (length bs)) 0) as [Hz | Hnz].
  - destruct bs; [| cbn in Hz; lia]. cbn.
    split; [now destruct (confirm _) |]. split; [constructor |].
    intros i d H. now destruct i.
  - destruct (confirm (exportQuestion (length bs))); cbn [negb].
    + split; [apply exportFrom_texts |]. split; [apply exportFrom_names |].
      intros i d H. apply exportFrom_nth in H. cbn [Nat.add] in H.
      destruct H as [Hn Hd]. split; [exact Hn | lia].
    + split; [reflexivity |]. split; [constructor |].
      intros i d H. now destruct i.
Qed.

(** ** Colours *)

(** X12 (button colours): two buttons that [getButtonColor] gives the same
    classes, in the same state or in two states, belong to blocks of the
    same category, are both the active one or both not, and for NORMAL
    blocks were drawn in the same theme: the classes tell the categories
    apart. *)
Theorem X12_button_colour (st st' : AppState) (i j : Z) (c : str) :
  getButtonColor st i = Some c ->
  getButtonColor st' j = Some c ->
  exists b b' : TextBlock,
    blockAt (blocks st) i = Some b /\
    blockAt (blocks st') j = Some b' /\
    type b = type b' /\
    isActive st i = isActive st' j /\
    (type b = NORMAL -> isDarkMode st = isDarkMode st').
Proof.
  unfold getButtonColor. intros H1 H2.
  destruct (blockAt (blocks st) i) as [b |]; [| discriminate].
  destruct (blockAt (blocks st') j) as [b' |]; [| discriminate].
  exists b, b'. rewrite <- H2 in H1. clear H2.
  destruct (type b), (type b'), (isActive st i), (isActive st' j),
    (isDarkMode st), (isDarkMode st');
    try (vm_compute in H1; discriminate H1);
    repeat split; try reflexivity; intros Hn; discriminate Hn.
Qed.

Lemma X12_button_colour_witness :
  getButtonColor uploaded_scenario3 0
  = Some (lit "bg-amber-500 text-white hover:bg-amber-400 ring-2 ring-amber-500/20") /\
  getButtonColor (toggleDarkMode uploaded_scenario3) 0
  = Some (lit "bg-amber-500 text-white hover:bg-amber-400 ring-2 ring-amber-500/20") /\
  exists b b' : TextBlock,
    blockAt (blocks uploaded_scenario3) 0 = Some b /\
    blockAt (blocks (toggleDarkMode uploaded_scenario3)) 0 = Some b' /\
    type b = type b' /\
    isActive uploaded_scenario3 0 = isActive (toggleDarkMode uploaded_scenario3) 0 /\
    (type b = NORMAL ->
     isDarkMode uploaded_scenario3 = isDarkMode (toggleDarkMode uploaded_scenario3)).
Proof.
  split; [reflexivity |]. split; [reflexivity |].
  apply (X12_button_colour uploaded_scenario3 (toggleDarkMode uploaded_scenario3) 0 0
           (lit "bg-amber-500 text-white hover:bg-amber-400 ring-2 ring-amber-500/20"));
    reflexivity.
Defined.

(** X13 (highlight): a class list that [getHighlightStyle] answers is
    empty exactly when the index is not the active one; when two calls
    answer the same class list and it is not empty, both indices are active
    ones with a block, the theme is the same and the two blocks have the
    same category. *)
Theorem X13_highlight (st st' : AppState) (i j : Z) (c : str) :
  getHighlightStyle st i = Some c ->
  getHighlightStyle st' j = Some c ->
  (c = [] /\ isActive st i = false /\ isActive st' j = false) \/
  (c <> [] /\ isActive st i = true /\ isActive st' j = true /\
   isDarkMode st = isDarkMode st' /\
   exists b b' : TextBlock,
     blockAt (blocks st) i = Some b /\
     blockAt (blocks st') j = Some b' /\
     type b = type b').
Proof.
  unfold getHighlightStyle. intros H1 H2.
  destruct (isActive st i), (isActive st' j); cbn [negb] in *.
  - right.
    destruct (blockAt (blocks st) i) as [b |]; [| discriminate].
    destruct (blockAt (blocks st') j) as [b' |]; [| discriminate].
    assert (Hc : c <> []).
    { intros ->. destruct (type b'), (isDarkMode st'); vm_compute in H2; discriminate H2. }
    split; [exact Hc |]. split; [reflexivity |]. split; [reflexivity |].
    rewrite <- H2 in H1. clear H2 Hc.
    assert (H : isDarkMode st = isDarkMode st' /\ type b = type b').
    { destruct (type b), (type b'), (isDarkMode st), (isDarkMode st');
        try (vm_compute in H1; discriminate H1); split; reflexivity. }
    destruct H as [Hd Ht]. split; [exact Hd |].
    exists b, b'. repeat split. exact Ht.
  - exfalso. inversion H2. subst c.
    destruct (blockAt (blocks st) i) as [b |]; [| discriminate].
    destruct (type b), (isDarkMode st); vm_compute in H1; discriminate H1.
  - exfalso. inversion H1. subst c.
    destruct (blockAt (blocks st') j) as [b' |]; [| discriminate].
    destruct (type b'), (isDarkMode st'); vm_compute in H2; discriminate H2.
  - left. inversion H2. now repeat split.
Qed.

Lemma X13_highlight_witness :
  getHighlightStyle (handleButtonClick (blocks uploaded_scenario3) 0 true uploaded_scenario3) 0
  = Some (lit "bg-amber-900/20 border-l-4 border-amber-500") /\
  ((lit "bg-amber-900/20 border-l-4 border-amber-500" = [] /\
    isActive (handleButtonClick (blocks uploaded_scenario3) 0 true uploaded_scenario3) 0
    = false /\
    isActive (handleButtonClick (blocks uploaded_scenario3) 0 true uploaded_scenario3) 0
    = false) \/
   (lit "bg-amber-900/20 border-l-4 border-amber-500" <> [] /\
    isActive (handleButtonClick (blocks uploaded_scenario3) 0 true uploaded_scenario3) 0
    = true /\
    isActive (handleButtonClick (blocks uploaded_scenario3) 0 true uploaded_scenario3) 0
    = true /\
    isDarkMode (handleButtonClick (blocks uploaded_scenario3) 0 true uploaded_scenario3)
    = isDarkMode (handleButtonClick (blocks uploaded_scenario3) 0 true uploaded_scenario3) /\
    exists b b' : TextBlock,
      blockAt (blocks (handleButtonClick (blocks uploaded_scenario3) 0 true
                         uploaded_scenario3)) 0 = Some b /\
      blockAt (blocks (handleButtonClick (blocks uploaded_scenario3) 0 true
                         uploaded_scenario3)) 0 = Some b' /\
      type b = type b')).
Proof.
  split; [reflexivity |].
  apply (X13_highlight
           (handleButtonClick (blocks uploaded_scenario3) 0 true uploaded_scenario3)
           (handleButtonClick (blocks uploaded_scenario3) 0 true uploaded_scenario3)
           0 0 (lit "bg-amber-900/20 border-l-4 border-amber-500"));
    reflexivity.
Defined.

(** ** Copying and exporting what is on the screen *)

Lemma isActive_after_click (st : AppState) (index k : Z) :
  isActive (mkApp (blocks st) (Some index) (isDarkMode st) (totalChars st)) k
  = (index =? k).
Proof. reflexivity. Qed.

(** X14 (a copy that succeeds): when the handler is called for an index
    that has a block, the text handed to the clipboard is the content of
    that block; once the write has succeeded the blocks, the theme and the
    character count are what they were, the index is the active one, and
    [getHighlightStyle] answers the empty class list for every other index
    and for no other: one block at most is highlighted. *)
Theorem X14_copy (rendered : list TextBlock) (index : Z) (b : TextBlock) (st : AppState) :
  blockAt rendered index = Some b ->
  copyRequest rendered index = Some (content b) /\
  blocks (handleButtonClick rendered index true st) = blocks st /\
  isDarkMode (handleButtonClick rendered index true st) = isDarkMode st /\
  totalChars (handleButtonClick rendered index true st) = totalChars st /\
  activeBlockIndex (handleButtonClick rendered index true st) = Some index /\
  handleButtonClick rendered index false st = st /\
  forall k : Z,
    getHighlightStyle (handleButtonClick rendered index true st) k = Some [] <-> k <> index.
Proof.
  intros Hb.
  assert (Hreq : copyRequest rendered index = Some (content b)).
  { unfold copyRequest. rewrite Hb. cbn [option_map].
    destruct (Z.geb_spec index (Z.of_nat (length rendered))) as [Hge | _]; [| reflexivity].
    unfold blockAt in Hb. destruct (index <? 0); [discriminate |].
    assert (Hlt : (Z.to_nat index < length rendered)%nat)
      by (apply nth_error_Some; rewrite Hb; discriminate).
    lia. }
  unfold handleButtonClick. rewrite Hreq. cbn [blocks isDarkMode totalChars activeBlockIndex].
  repeat (split; [reflexivity |]).
  intros k. unfold getHighlightStyle. rewrite isActive_after_click.
  destruct (Z.eqb_spec index k) as [-> | Hne]; cbn [negb].
  - split; [| congruence]. intros H. exfalso.
    cbn [blocks isDarkMode] in H.
    destruct (blockAt (blocks st) k) as [b' |]; [| discriminate].
    destruct (type b'), (isDarkMode st); vm_compute in H; discriminate H.
  - split; [congruence | reflexivity].
Qed.

Lemma X14_copy_witness :
  blockAt (blocks uploaded_scenario3) 0
  = Some (mkBlock (lit "block-k3-0-23") scenario3 SPECIAL_TRIGGER) /\
  copyRequest (blocks uploaded_scenario3) 0
  = Some (content (mkBlock (lit "block-k3-0-23") scenario3 SPECIAL_TRIGGER)) /\
  blocks (handleButtonClick (blocks uploaded_scenario3) 0 true uploaded_scenario3)
  = blocks uploaded_scenario3 /\
  isDarkMode (handleButtonClick (blocks uploaded_scenario3) 0 true uploaded_scenario3)
  = isDarkMode uploaded_scenario3 /\
  totalChars (handleButtonClick (blocks uploaded_scenario3) 0 true uploaded_scenario3)
  = totalChars uploaded_scenario3 /\
  activeBlockIndex (handleButtonClick (blocks uploaded_scenario3) 0 true uploaded_scenario3)
  = Some 0 /\
  handleButtonClick (blocks uploaded_scenario3) 0 false uploaded_scenario3
  = uploaded_scenario3 /\
  forall k : Z,
    getHighlightStyle
      (handleButtonClick (blocks uploaded_scenario3) 0 true uploaded_scenario3) k = Some []
    <-> k <> 0.
Proof.
  split; [reflexivity |].
  apply (X14_copy (blocks uploaded_scenario3) 0
           (mkBlock (lit "block-k3-0-23") scenario3 SPECIAL_TRIGGER) uploaded_scenario3).
  reflexivity.
Defined.

(** X15 (the exported files fit the limit): in every state the component
    can reach, exporting the blocks on the screen downloads nothing or one
    file per block, and the text of every file has between 1 and
    [MAX_CHARS] characters. *)
Theorem X15_export_fits (st : AppState) (confirm : str -> bool) :
  reachable st ->
  (handleExportAll confirm (blocks st) = [] \/
   length (handleExportAll confirm (blocks st)) = length (blocks st)) /\
  Forall (fun d => 1 <= len (d_text d) <= MAX_CHARS)
         (handleExportAll confirm (blocks st)).
Proof.
  intros Hr. destruct (reachable_screen st Hr) as (_ & _ & Hsz & _).
  unfold handleExportAll.
  destruct (Z.of_nat (length (blocks st)) =? 0); [split; [now left | constructor] |].
  destruct (confirm _); cbn [negb]; [| split; [now left | constructor]].
  split; [right; apply exportFrom_length |].
  apply Forall_map with (f := d_text) (P := fun t => 1 <= len t <= MAX_CHARS).
  rewrite exportFrom_texts. unfold contents. now apply Forall_map.
Qed.

Lemma X15_export_fits_witness :
  reachable uploaded_scenario3 /\
  (handleExportAll (fun _ => true) (blocks uploaded_scenario3) = [] \/
   length (handleExportAll (fun _ => true) (blocks uploaded_scenario3))
   = length (blocks uploaded_scenario3)) /\
  Forall (fun d => 1 <= len (d_text d) <= MAX_CHARS)
         (handleExportAll (fun _ => true) (blocks uploaded_scenario3)).
Proof.
  assert (H : reachable uploaded_scenario3).
  { apply (reach_toggle (toggleDarkMode uploaded_scenario3)).
    apply (reach_upload initialApp _ (lit "k3") (Some (Extracted scenario3)));
      [apply reach_initial | vm_compute; reflexivity]. }
  split; [exact H | apply (X15_export_fits uploaded_scenario3 (fun _ => true) H)].
Defined.

(** * The configuration *)

(** ** What the loop would do with another configuration *)






